(** * Text-to-SQL converter: the phrase translator of the Express backend

    A shallow embedding of [generateSQLFromText] and its helpers
    ([extractWhereConditions], [findBestColumnMatch], [extractColumns],
    [extractOrderBy], [extractColumnForAggregate], [extractLimit]) together
    with the part of JavaScript they run on: string methods, a backtracking
    regular-expression matcher in the style of the ECMAScript pattern
    semantics, and exceptions.

    Strings are sequences of 8-bit code units, read as the code units
    U+0000 .. U+00FF of a JavaScript string. *)

From Stdlib Require Import String Ascii List Bool Arith Lia.
Import ListNotations.
Open Scope list_scope.
Open Scope string_scope.

(* ===================================================================== *)
(** ** Code units *)
(* ===================================================================== *)

Module CodeUnit.

Definition code (c : ascii) : nat := nat_of_ascii c.

Definition inRange (lo hi : nat) (c : ascii) : bool :=
  Nat.leb lo (code c) && Nat.leb (code c) hi.

Definition is_code (n : nat) (c : ascii) : bool := Nat.eqb (code c) n.

Definition isUpperAZ (c : ascii) : bool := inRange 65 90 c.
Definition isLowerAZ (c : ascii) : bool := inRange 97 122 c.
Definition isDigit (c : ascii) : bool := inRange 48 57 c.

(** The basic word characters of [\w] and [\b]: [A-Za-z0-9_]. *)
Definition isWordChar (c : ascii) : bool :=
  isUpperAZ c || isLowerAZ c || isDigit c || is_code 95 c.

(** WhiteSpace and LineTerminator below U+0100: TAB, LF, VT, FF, CR,
    SPACE and NO-BREAK SPACE.  This is the set of [\s] and of [trim]. *)
Definition isWhiteSpace (c : ascii) : bool :=
  inRange 9 13 c || is_code 32 c || is_code 160 c.

(** [.] matches everything but a line terminator. *)
Definition isLineTerminator (c : ascii) : bool :=
  is_code 10 c || is_code 13 c.

(** Lower-case mapping: [A-Z] and U+00C0 .. U+00DE without U+00D7. *)
Definition toLower (c : ascii) : ascii :=
  if isUpperAZ c || (inRange 192 222 c && negb (is_code 215 c))
  then ascii_of_nat (code c + 32) else c.

(** Upper-case mapping restricted to the code units whose upper-case form
    is again a single code unit below U+0100: [a-z] and U+00E0 .. U+00FE
    without U+00F7. *)
Definition toUpper (c : ascii) : ascii :=
  if isLowerAZ c || (inRange 224 254 c && negb (is_code 247 c))
  then ascii_of_nat (code c - 32) else c.

(** Canonicalize of the pattern semantics under the [i] flag (no [u]
    flag): the upper-case form when it is a single code unit.  The three
    code units whose upper-case form leaves the range (U+00B5, U+00DF,
    U+00FF) are left in place; no other code unit of the range shares
    their canonical form, so comparisons come out the same. *)
Definition canonicalize (ignoreCase : bool) (c : ascii) : ascii :=
  if ignoreCase then toUpper c else c.

End CodeUnit.

(* ===================================================================== *)
(** ** String methods *)
(* ===================================================================== *)

Module JS.
Import CodeUnit.

Fixpoint mapString (f : ascii -> ascii) (s : string) : string :=
  match s with
  | EmptyString => EmptyString
  | String c s' => String (f c) (mapString f s')
  end.

Definition toLowerCase (s : string) : string := mapString toLower s.

(** The translator upper-cases only the direction word of an ORDER BY
    clause, which consists of the letters of [asc] or [desc]. *)
Definition toUpperCase (s : string) : string := mapString toUpper s.

Fixpoint trimStart (s : string) : string :=
  match s with
  | EmptyString => EmptyString
  | String c s' => if isWhiteSpace c then trimStart s' else s
  end.

(** [trimEnd] drops the trailing run of white space: a character is kept
    when it is not white space or when something is kept after it. *)
Fixpoint trimEnd (s : string) : string :=
  match s with
  | EmptyString => EmptyString
  | String c s' =>
      match trimEnd s' with
      | EmptyString => if isWhiteSpace c then EmptyString else String c EmptyString
      | t => String c t
      end
  end.

Definition trim (s : string) : string := trimEnd (trimStart s).

Fixpoint startsWith (s p : string) : bool :=
  match p, s with
  | EmptyString, _ => true
  | String _ _, EmptyString => false
  | String a p', String b s' => Ascii.eqb a b && startsWith s' p'
  end.

(** [s.includes(sub)] *)
Fixpoint includes (s sub : string) : bool :=
  startsWith s sub ||
  match s with
  | EmptyString => false
  | String _ s' => includes s' sub
  end.

(** [xs.join(sep)] *)
Fixpoint join (sep : string) (xs : list string) : string :=
  match xs with
  | [] => ""
  | [x] => x
  | x :: xs' => x ++ sep ++ join sep xs'
  end.

(** Truthiness of a string: the empty string is falsy. *)
Definition truthy (s : string) : bool :=
  match s with EmptyString => false | _ => true end.

(** [xs.find(p)] followed by a truthiness test, the shape
    [const m = xs.find(p); if (m) return m;]. *)
Definition findTruthy (p : string -> bool) (xs : list string) : option string :=
  match find p xs with
  | Some c => if truthy c then Some c else None
  | None => None
  end.

(** A [null] or [undefined] inside a template literal. *)
Definition orNull (o : option string) : string :=
  match o with Some s => s | None => "null" end.
Definition orUndefined (o : option string) : string :=
  match o with Some s => s | None => "undefined" end.

(** *** [isNaN] on a string: the StringNumericLiteral grammar *)

Fixpoint allChars (p : ascii -> bool) (s : string) : bool :=
  match s with
  | EmptyString => true
  | String c s' => p c && allChars p s'
  end.

Fixpoint spanChars (p : ascii -> bool) (s : string) : string * string :=
  match s with
  | EmptyString => (EmptyString, EmptyString)
  | String c s' =>
      if p c then let (a, b) := spanChars p s' in (String c a, b)
      else (EmptyString, s)
  end.

Definition isHexDigit (c : ascii) : bool :=
  isDigit c || inRange 65 70 c || inRange 97 102 c.
Definition isOctalDigit (c : ascii) : bool := inRange 48 55 c.
Definition isBinaryDigit (c : ascii) : bool := inRange 48 49 c.

Definition nonEmptyAll (p : ascii -> bool) (s : string) : bool :=
  truthy s && allChars p s.

(** ExponentPart (optional): [e] or [E], an optional sign, digits. *)
Definition isExponentOpt (s : string) : bool :=
  match s with
  | EmptyString => true
  | String e s' =>
      (is_code 101 e || is_code 69 e) &&
      match s' with
      | String sg s'' =>
          if is_code 43 sg || is_code 45 sg
          then nonEmptyAll isDigit s''
          else nonEmptyAll isDigit s'
      | EmptyString => false
      end
  end.

(** StrUnsignedDecimalLiteral *)
Definition isUnsignedDecimal (s : string) : bool :=
  if String.eqb s "Infinity" then true
  else
    let (ip, r) := spanChars isDigit s in
    match r with
    | String dot r' =>
        if is_code 46 dot then
          let (fp, r'') := spanChars isDigit r' in
          (truthy ip || truthy fp) && isExponentOpt r''
        else truthy ip && isExponentOpt r
    | EmptyString => truthy ip
    end.

(** StrNumericLiteral: a signed decimal literal, or an unsigned hex,
    octal or binary integer literal. *)
Definition isNumericLiteral (s : string) : bool :=
  match s with
  | String z (String x d) =>
      if is_code 48 z && (is_code 120 x || is_code 88 x) then nonEmptyAll isHexDigit d
      else if is_code 48 z && (is_code 111 x || is_code 79 x) then nonEmptyAll isOctalDigit d
      else if is_code 48 z && (is_code 98 x || is_code 66 x) then nonEmptyAll isBinaryDigit d
      else if is_code 43 z || is_code 45 z then isUnsignedDecimal (String x d)
      else isUnsignedDecimal s
  | _ => isUnsignedDecimal s
  end.

(** [isNaN(s)] for a string [s]: [Number(s)] trims, maps the empty string
    to 0 and any text outside the grammar to NaN. *)
Definition isNaN (s : string) : bool :=
  let t := trim s in
  match t with
  | EmptyString => false
  | _ => negb (isNumericLiteral t)
  end.

End JS.

(* ===================================================================== *)
(** ** Regular expressions *)
(* ===================================================================== *)

Module RegExp.
Import CodeUnit.

(** Members of a character class. *)
Inductive classAtom : Type :=
| CChar (c : ascii)     (* a literal character *)
| CDigit                (* \d *)
| CWord                 (* \w *)
| CSpace.               (* \s *)

(** Pattern syntax, as far as the patterns of the program use it. *)
Inductive regex : Type :=
| Empty
| Char (c : ascii)                          (* a pattern character *)
| Dot                                       (* .   *)
| Class (invert : bool) (atoms : list classAtom)  (* [...], [^...], \w, \s, \d *)
| WordBoundary                              (* \b  *)
| Seq (r1 r2 : regex)
| Alt (r1 r2 : regex)                       (* r1|r2 *)
| Group (k : nat) (r : regex)               (* the k-th capturing group *)
| Repeat (min : nat) (max : option nat) (greedy : bool) (r : regex).

(** A match state: the character before the current position, the input
    from the current position on, the current position, and the captures
    set so far (latest binding first). *)
Record state : Type := mkState {
  prev : option ascii;
  rest : string;
  endIndex : nat;
  captures : list (nat * string)
}.

Fixpoint lookup (k : nat) (caps : list (nat * string)) : option string :=
  match caps with
  | [] => None
  | (j, v) :: caps' => if Nat.eqb j k then Some v else lookup k caps'
  end.

Definition setCapture (k : nat) (v : string) (x : state) : state :=
  mkState (prev x) (rest x) (endIndex x) ((k, v) :: captures x).

Definition memNat (k : nat) (ks : list nat) : bool := existsb (Nat.eqb k) ks.

(** Captures of the groups [ks] go back to undefined. *)
Definition clearCaptures (ks : list nat) (x : state) : state :=
  mkState (prev x) (rest x) (endIndex x)
          (filter (fun kv => negb (memNat (fst kv) ks)) (captures x)).

Fixpoint groupsOf (r : regex) : list nat :=
  match r with
  | Seq r1 r2 | Alt r1 r2 => groupsOf r1 ++ groupsOf r2
  | Group k r1 => k :: groupsOf r1
  | Repeat _ _ _ r1 => groupsOf r1
  | _ => []
  end.

(** A group that every successful match of the pattern sets: it lies on
    every path through the pattern, outside any quantifier, and nothing
    after it clears it. *)
Fixpoint defines (k : nat) (r : regex) : bool :=
  match r with
  | Group j r1 => Nat.eqb j k || defines k r1
  | Seq r1 r2 => (defines k r1 && negb (memNat k (groupsOf r2))) || defines k r2
  | Alt r1 r2 => defines k r1 && defines k r2
  | _ => false
  end.

Definition atomMatches (ic : bool) (ch : ascii) (a : classAtom) : bool :=
  match a with
  | CChar c => Ascii.eqb (canonicalize ic c) (canonicalize ic ch)
  | CDigit => isDigit ch
  | CWord => isWordChar ch
  | CSpace => isWhiteSpace ch
  end.

(** One character is consumed when [p] accepts it. *)
Definition consume (p : ascii -> bool) (x : state) : list state :=
  match rest x with
  | String ch s' =>
      if p ch then [mkState (Some ch) s' (S (endIndex x)) (captures x)] else []
  | EmptyString => []
  end.

Definition isWordCharAt (o : option ascii) : bool :=
  match o with Some c => isWordChar c | None => false end.

Definition nextChar (x : state) : option ascii :=
  match rest x with String c _ => Some c | EmptyString => None end.

Definition decMax (max : option nat) : option nat :=
  match max with Some n => Some (Nat.pred n) | None => None end.

Definition maxIsZero (max : option nat) : bool :=
  match max with Some 0 => true | _ => false end.

(** RepeatMatcher.  [m] is the matcher of the body and [ks] its groups.
    The results are listed in the order in which backtracking tries
    them.  Every call either lowers [min] or, when [min] is 0, moves
    strictly forward in the input (an iteration that consumes nothing is
    refused), so [min + length (rest x)] bounds the depth. *)
Fixpoint repeatMatcher (m : state -> list state) (ks : list nat) (greedy : bool)
         (fuel : nat) (min : nat) (max : option nat) (x : state) : list state :=
  if maxIsZero max then [x]
  else
    match fuel with
    | 0 => [x]
    | S fuel' =>
        let iterate :=
          flat_map
            (fun y =>
               if Nat.eqb min 0 && Nat.eqb (endIndex y) (endIndex x) then []
               else repeatMatcher m ks greedy fuel' (Nat.pred min) (decMax max) y)
            (m (clearCaptures ks x)) in
        if negb (Nat.eqb min 0) then iterate
        else if greedy then iterate ++ [x]
        else x :: iterate
    end.

(** The matcher of a pattern: all the ways to match [r] from [x], in
    backtracking order. *)
Fixpoint run (ic : bool) (r : regex) (x : state) : list state :=
  match r with
  | Empty => [x]
  | Char c => consume (fun ch => Ascii.eqb (canonicalize ic c) (canonicalize ic ch)) x
  | Dot => consume (fun ch => negb (isLineTerminator ch)) x
  | Class invert atoms =>
      consume (fun ch => xorb invert (existsb (atomMatches ic ch) atoms)) x
  | WordBoundary =>
      if xorb (isWordCharAt (prev x)) (isWordCharAt (nextChar x)) then [x] else []
  | Seq r1 r2 => flat_map (run ic r2) (run ic r1 x)
  | Alt r1 r2 => run ic r1 x ++ run ic r2 x
  | Group k r1 =>
      map (fun y => setCapture k (substring 0 (endIndex y - endIndex x) (rest x)) y)
          (run ic r1 x)
  | Repeat min max greedy r1 =>
      repeatMatcher (run ic r1) (groupsOf r1) greedy
                    (min + String.length (rest x)) min max x
  end.

(** The array a successful match returns: [index], element 0 and the
    captures ([undefined] for a group that took no part). *)
Record matchResult : Type := mkMatch {
  index : nat;
  matched : string;
  groups : list (nat * string)
}.

Definition group (m : matchResult) (k : nat) : option string :=
  match k with
  | 0 => Some (matched m)
  | _ => lookup k (groups m)
  end.

(** One attempt at a fixed start position. *)
Definition matchAt (ic : bool) (r : regex) (p : option ascii) (s : string) (i : nat)
  : option (nat * matchResult) :=
  match run ic r (mkState p s i []) with
  | y :: _ => Some (endIndex y, mkMatch i (substring 0 (endIndex y - i) s) (captures y))
  | [] => None
  end.

(** Start positions are tried from left to right, the end of the input
    included. *)
Fixpoint execFrom (ic : bool) (r : regex) (p : option ascii) (s : string) (i : nat)
  : option matchResult :=
  match matchAt ic r p s i with
  | Some (_, m) => Some m
  | None =>
      match s with
      | String c s' => execFrom ic r (Some c) s' (S i)
      | EmptyString => None
      end
  end.

(** [r.exec(s)] and [s.match(r)] for a pattern without the [g] flag. *)
Definition exec (ic : bool) (r : regex) (s : string) : option matchResult :=
  execFrom ic r None s 0.

(** [r.test(s)] *)
Definition test (ic : bool) (r : regex) (s : string) : bool :=
  match exec ic r s with Some _ => true | None => false end.

(** [s.split(r)] for a separator pattern without capturing groups.
    [p] is the start of the piece being collected and [q] the position
    being tried; [pre] is the character before [q], [sp] the input from
    [p] on and [sq] the input from [q] on.  A position is tried a second
    time only after an empty separator was found there, so twice the
    length of the input, plus two, bounds the number of steps. *)
Fixpoint splitLoop (ic : bool) (r : regex) (fuel : nat)
         (p : nat) (sp : string) (q : nat) (pre : option ascii) (sq : string)
  : list string :=
  match fuel with
  | 0 => [sp]
  | S fuel' =>
      match sq with
      | EmptyString => [sp]
      | String c sq' =>
          match matchAt ic r pre sq q with
          | None => splitLoop ic r fuel' p sp (S q) (Some c) sq'
          | Some (e, _) =>
              if Nat.eqb e p then splitLoop ic r fuel' p sp (S q) (Some c) sq'
              else
                let se := substring (e - q) (String.length sq) sq in
                let pe := match e - q with
                          | 0 => pre
                          | S d => String.get d sq
                          end in
                substring 0 (q - p) sp :: splitLoop ic r fuel' e se e pe se
          end
      end
  end.

Definition split (ic : bool) (r : regex) (s : string) : list string :=
  match s with
  | EmptyString =>
      match matchAt ic r None s 0 with Some _ => [] | None => [s] end
  | _ => splitLoop ic r (2 * String.length s + 2) 0 s 0 None s
  end.

(** *** Building patterns *)

Fixpoint lit (s : string) : regex :=
  match s with
  | EmptyString => Empty
  | String c EmptyString => Char c
  | String c s' => Seq (Char c) (lit s')
  end.

Fixpoint seqs (rs : list regex) : regex :=
  match rs with
  | [] => Empty
  | [r] => r
  | r :: rs' => Seq r (seqs rs')
  end.

Fixpoint alts (rs : list regex) : regex :=
  match rs with
  | [] => Empty
  | [r] => r
  | r :: rs' => Alt r (alts rs')
  end.

Definition star (r : regex) : regex := Repeat 0 None true r.      (* r*  *)
Definition lazyStar (r : regex) : regex := Repeat 0 None false r. (* r*? *)
Definition plus (r : regex) : regex := Repeat 1 None true r.      (* r+  *)
Definition opt (r : regex) : regex := Repeat 0 (Some 1) true r.   (* r?  *)

Definition bnd : regex := WordBoundary.               (* \b  *)
Definition wordc : regex := Class false [CWord].      (* \w  *)
Definition ws : regex := Class false [CSpace].        (* \s  *)
Definition digit : regex := Class false [CDigit].     (* \d  *)
Definition words (ws : list string) : regex := alts (map lit ws).

End RegExp.

(* ===================================================================== *)
(** ** Exceptions *)
(* ===================================================================== *)

Module Exn.

(** The only exception the translator can raise: reading a property of
    [null] or [undefined]. *)
Inductive exn : Type := TypeError.

Inductive completion (A : Type) : Type :=
| Normal (a : A)
| Throw (e : exn).
Arguments Normal {A} a.
Arguments Throw {A} e.

Definition bind {A B : Type} (c : completion A) (k : A -> completion B) : completion B :=
  match c with
  | Normal a => k a
  | Throw e => Throw e
  end.

(** [try { c } catch (error) { h }] *)
Definition tryCatch {A : Type} (c : completion A) (h : exn -> completion A) : completion A :=
  match c with
  | Normal a => Normal a
  | Throw e => h e
  end.

(** [o.toLowerCase()], [o[1]] and the like on a value that may be
    [null] or [undefined]. *)
Definition deref {A : Type} (o : option A) : completion A :=
  match o with
  | Some a => Normal a
  | None => Throw TypeError
  end.

End Exn.

Notation "x <- c ;; k" := (Exn.bind c (fun x => k))
  (at level 61, c at next level, right associativity).

(* ===================================================================== *)
(** ** The translator *)
(* ===================================================================== *)

Import CodeUnit JS RegExp Exn.

Definition apostrophe : ascii := ascii_of_nat 39.
Definition doubleQuote : ascii := ascii_of_nat 34.

(** *** findBestColumnMatch *)

Definition findBestColumnMatch (word : string) (columnNames : list string) : option string :=
  let lowerWord := toLowerCase word in
  (* Exact match *)
  match findTruthy (fun col => String.eqb (toLowerCase col) lowerWord) columnNames with
  | Some exactMatch => Some exactMatch
  | None =>
      (* Contains match *)
      match findTruthy (fun col => includes (toLowerCase col) lowerWord) columnNames with
      | Some containsMatch => Some containsMatch
      | None =>
          (* Partial match *)
          match findTruthy (fun col => includes lowerWord (toLowerCase col)) columnNames with
          | Some partialMatch => Some partialMatch
          | None => None
          end
      end
  end.

(** [findBestColumnMatch(match[k], columnNames)]: the call throws when the
    capture is [undefined]. *)
Definition columnOfCapture (g : option string) (columnNames : list string)
  : completion (option string) :=
  word <- deref g ;; Normal (findBestColumnMatch word columnNames).

(** *** extractWhereConditions *)

Record conditionPattern : Type := mkCondition {
  regex_of : regex;
  handler : matchResult -> completion (option string)
}.

Definition isNaNValue (v : option string) : bool :=
  match v with Some t => isNaN t | None => true end.

Definition quoted (t : string) : string := "'" ++ t ++ "'".

Definition valueClass : regex := plus (Class false [CWord; CChar "."]).
Definition numberClass : regex := plus (Class false [CDigit; CChar "."]).
Definition optQuote : regex := opt (Class false [CChar apostrophe; CChar doubleQuote]).
Definition unquotedWord : regex :=
  plus (Class true [CChar apostrophe; CChar doubleQuote; CSpace]).

Definition greaterRegex : regex :=
  seqs [Group 1 (plus wordc); plus ws;
        words ["greater than"; "more than"; "above"; "over"]; plus ws;
        Group 2 numberClass].

Definition lessRegex : regex :=
  seqs [Group 1 (plus wordc); plus ws;
        words ["less than"; "fewer than"; "below"; "under"]; plus ws;
        Group 2 numberClass].

Definition equalRegex : regex :=
  seqs [Group 1 (plus wordc); plus ws;
        words ["equal to"; "exactly"; "is"]; plus ws;
        Group 2 valueClass].

Definition likeRegex : regex :=
  seqs [Group 1 (plus wordc); plus ws;
        words ["containing"; "contain"; "like"; "with"]; plus ws;
        optQuote; Group 2 unquotedWord; optQuote].

Definition compareRegex : regex :=
  seqs [Group 1 (plus wordc); plus ws;
        Group 2 (Seq (Class false [CChar ">"; CChar "<"; CChar "="]) (opt (Char "=")));
        plus ws; Group 3 valueClass].

Definition namedRegex : regex :=
  seqs [words ["named"; "called"; "name is"; "is"]; plus ws;
        optQuote; Group 1 unquotedWord; optQuote].

Definition conditionPatterns (columnNames : list string) : list conditionPattern :=
  [ (* Greater than *)
    mkCondition greaterRegex (fun m =>
      column <- columnOfCapture (group m 1) columnNames ;;
      Normal (match column with
              | Some c => Some (c ++ " > " ++ orUndefined (group m 2))
              | None => None
              end));
    (* Less than *)
    mkCondition lessRegex (fun m =>
      column <- columnOfCapture (group m 1) columnNames ;;
      Normal (match column with
              | Some c => Some (c ++ " < " ++ orUndefined (group m 2))
              | None => None
              end));
    (* Equal to *)
    mkCondition equalRegex (fun m =>
      column <- columnOfCapture (group m 1) columnNames ;;
      let value := if isNaNValue (group m 2)
                   then quoted (orUndefined (group m 2))
                   else orUndefined (group m 2) in
      Normal (match column with
              | Some c => Some (c ++ " = " ++ value)
              | None => None
              end));
    (* Contains/Like *)
    mkCondition likeRegex (fun m =>
      column <- columnOfCapture (group m 1) columnNames ;;
      Normal (match column with
              | Some c => Some (c ++ " LIKE '%" ++ orUndefined (group m 2) ++ "%'")
              | None => None
              end));
    (* Simple comparisons *)
    mkCondition compareRegex (fun m =>
      column <- columnOfCapture (group m 1) columnNames ;;
      let op := orUndefined (group m 2) in
      let value :=
        if isNaNValue (group m 3) &&
           negb (existsb (String.eqb op) [">"; "<"; ">="; "<="])
        then quoted (orUndefined (group m 3))
        else orUndefined (group m 3) in
      Normal (match column with
              | Some c => Some (c ++ " " ++ op ++ " " ++ value)
              | None => None
              end));
    (* Named/Called *)
    mkCondition namedRegex (fun m =>
      let column := match findBestColumnMatch "name" columnNames with
                    | Some c => Some c
                    | None => findBestColumnMatch "title" columnNames
                    end in
      Normal (match column with
              | Some c => Some (c ++ " = " ++ quoted (orUndefined (group m 1)))
              | None => None
              end)) ].

(** The loop over the condition patterns; [conditions] is the array built
    so far. *)
Fixpoint collectConditions (ps : list conditionPattern) (text : string)
         (conditions : list string) : completion (list string) :=
  match ps with
  | [] => Normal conditions
  | p :: ps' =>
      match exec true (regex_of p) text with
      | Some m =>
          condition <- handler p m ;;
          collectConditions ps' text
            (match condition with
             | Some c => if truthy c then conditions ++ [c] else conditions
             | None => conditions
             end)
      | None => collectConditions ps' text conditions
      end
  end.

(** The result is [null] ([None]) or the joined conditions.  The unused
    local [words] of the source is left out. *)
Definition extractWhereConditions (text : string) (columnNames : list string)
  : completion (option string) :=
  conditions <- collectConditions (conditionPatterns columnNames) text [] ;;
  Normal (match conditions with
          | [] => None
          | _ => Some (join " AND " conditions)
          end).

(** *** extractColumns *)

Definition commaRegex : regex := seqs [star ws; Char ","; star ws].

Definition extractColumns (text : option string) (columnNames : list string) : string :=
  match text with
  | None => "*"
  | Some t =>
      if negb (truthy t) then "*"
      else
        let requestedColumns := map trim (split false commaRegex t) in
        let validColumns :=
          flat_map (fun col => match findBestColumnMatch col columnNames with
                               | Some matchedColumn => [matchedColumn]
                               | None => []
                               end) requestedColumns in
        match validColumns with
        | [] => "*"
        | _ => join ", " validColumns
        end
  end.

(** *** extractOrderBy *)

Definition orderRegex : regex :=
  seqs [words ["order by"; "sort by"]; plus ws; Group 1 (plus wordc);
        opt (Seq (plus ws) (Group 2 (words ["asc"; "desc"])))].

Definition extractOrderBy (text : string) (columnNames : list string) : completion string :=
  match exec true orderRegex text with
  | Some orderMatch =>
      column <- columnOfCapture (group orderMatch 1) columnNames ;;
      let direction :=
        toUpperCase (match group orderMatch 2 with
                     | Some g => if truthy g then g else "asc"
                     | None => "asc"
                     end) in
      Normal (match column with
              | Some c => "ORDER BY " ++ c ++ " " ++ direction
              | None => ""
              end)
  | None => Normal ""
  end.

(** *** extractColumnForAggregate *)

(** [new RegExp(`\\b${keyword}\\b.*?\\b(\\w+)\\b`, 'i')] for a keyword made
    of pattern characters only (letters, digits, underscore), as all the
    keywords passed by the callers are. *)
Definition aggregateRegex (keyword : string) : regex :=
  seqs [bnd; lit keyword; bnd; lazyStar Dot; bnd; Group 1 (plus wordc); bnd].

Definition plainKeyword (keyword : string) : bool := allChars isWordChar keyword.

(** The loop over the keywords: [Some column] when the function returns
    from inside the loop, [None] when the loop runs to its end. *)
Fixpoint columnAfterKeyword (text : string) (columnNames : list string)
         (keywords : list string) : completion (option string) :=
  match keywords with
  | [] => Normal None
  | keyword :: keywords' =>
      match exec true (aggregateRegex keyword) text with
      | Some m =>
          column <- columnOfCapture (group m 1) columnNames ;;
          match column with
          | Some c => Normal (Some c)
          | None => columnAfterKeyword text columnNames keywords'
          end
      | None => columnAfterKeyword text columnNames keywords'
      end
  end.

Definition numericHints : list string := ["id"; "age"; "salary"; "price"; "amount"].

Definition isNumericColumn (col : string) : bool :=
  includes (toLowerCase col) "id" ||
  includes (toLowerCase col) "age" ||
  includes (toLowerCase col) "salary" ||
  includes (toLowerCase col) "price" ||
  includes (toLowerCase col) "amount".

(** [None] is the [undefined] that [columnNames[0]] yields on an empty
    array. *)
Definition extractColumnForAggregate (text : string) (columnNames keywords : list string)
  : completion (option string) :=
  found <- columnAfterKeyword text columnNames keywords ;;
  match found with
  | Some c => Normal (Some c)
  | None =>
      (* Fallback: look for any numeric column *)
      let numericColumns := filter isNumericColumn columnNames in
      Normal (match hd_error numericColumns with
              | Some c => if truthy c then Some c else hd_error columnNames
              | None => hd_error columnNames
              end)
  end.

(** *** extractLimit *)

Definition limitRegex : regex :=
  seqs [words ["limit"; "first"; "top"]; plus ws; Group 1 (plus digit)].

Definition extractLimit (text : string) : string :=
  match exec true limitRegex text with
  | Some limitMatch => orUndefined (group limitMatch 1)
  | None => "100"
  end.

(** *** generateSQLFromText

    The fourth parameter of the source, [columnTypes], is handed on to
    [extractWhereConditions] and never read; it is left out. *)

(** The object the translator returns: [{ sqlQuery }] or
    [{ sqlQuery, error }]. *)
Record result : Type := mkResult {
  sqlQuery : string;
  error : option string
}.

(** The [sql] field of a pattern: a string or a function of the text. *)
Inductive sqlSource : Type :=
| Static (sql : string)
| Builder (f : string -> completion string).

Record pattern : Type := mkPattern {
  pattern_regex : regex;
  sql : sqlSource;
  description : string
}.

Definition countAllRegex : regex :=
  seqs [bnd; Group 1 (words ["count"; "how many"]); bnd; star Dot; bnd;
        Group 2 (words ["all"; "everything"; "records"; "rows"]); bnd].

Definition countRegex : regex :=
  seqs [bnd; Group 1 (words ["count"; "how many"]); bnd].

Definition selectAllRegex : regex :=
  alts [seqs [bnd; lit "show"; plus ws; lit "me"; plus ws; lit "all"; bnd];
        seqs [bnd; lit "select"; plus ws; lit "all"; bnd];
        seqs [bnd; lit "get"; plus ws; lit "all"; bnd];
        seqs [bnd; lit "list"; plus ws; lit "all"; bnd];
        seqs [bnd; lit "everything"; bnd]].

Definition filterRegex : regex :=
  alts [seqs [bnd; lit "find"; plus ws; lit "records"; plus ws; lit "where"; bnd];
        seqs [bnd; lit "filter"; plus ws; lit "by"; bnd]].

Definition showWhereRegex : regex :=
  seqs [bnd; lit "show"; plus ws; opt (Seq (lit "me") (plus ws));
        Group 1 (lazyStar Dot); plus ws; lit "where"; bnd].

(** The pattern the builder of the fifth rule matches again: the same
    without the two word boundaries. *)
Definition showWhereInner : regex :=
  seqs [lit "show"; plus ws; opt (Seq (lit "me") (plus ws));
        Group 1 (lazyStar Dot); plus ws; lit "where"].

Definition columnListClass : regex := plus (Class false [CWord; CSpace; CChar ","]).

Definition onlyRegex : regex :=
  seqs [bnd; Group 1 (words ["what"; "which"; "show me"; "display"; "get"]); bnd;
        star Dot; bnd; Group 2 (words ["but"; "only"; "just"]); plus ws;
        Group 3 columnListClass; bnd].

Definition onlyInner : regex :=
  seqs [words ["but"; "only"; "just"]; plus ws; Group 1 columnListClass].

Definition orderTrigger : regex :=
  alts [seqs [bnd; lit "order"; plus ws; lit "by"; bnd];
        seqs [bnd; lit "sort"; plus ws; lit "by"; bnd];
        seqs [bnd; lit "sorted"; bnd]].

Definition aggregateTrigger (keywords : list string) : regex :=
  seqs [bnd; Group 1 (words keywords); bnd; star Dot; bnd; Group 2 (plus wordc); bnd].

Definition limitTrigger : regex :=
  alts [seqs [bnd; lit "limit"; plus ws; Group 1 (plus digit); bnd];
        seqs [bnd; lit "first"; plus ws; Group 2 (plus digit); bnd];
        seqs [bnd; lit "top"; plus ws; Group 3 (plus digit); bnd]].

(** [conditions ? `WHERE ${conditions}` : ''] *)
Definition whereClauseOf (conditions : option string) : string :=
  match conditions with
  | Some c => if truthy c then "WHERE " ++ c else ""
  | None => ""
  end.

Definition aggregateBuilder (table : string) (columnNames keywords : list string)
           (fn alias : string) (text : string) : completion string :=
  column <- extractColumnForAggregate text columnNames keywords ;;
  Normal ("SELECT " ++ fn ++ "(" ++ orUndefined column ++ ") as " ++ alias ++ "_" ++
          orUndefined column ++ " FROM " ++ table).

(** Common patterns and their SQL equivalents *)
Definition patterns (table : string) (columnNames : list string) : list pattern :=
  [ mkPattern countAllRegex
      (Static ("SELECT COUNT(*) as count FROM " ++ table))
      "Count all records";
    mkPattern countRegex
      (Static ("SELECT COUNT(*) as count FROM " ++ table))
      "Count records";
    mkPattern selectAllRegex
      (Static ("SELECT * FROM " ++ table))
      "Select all records";
    mkPattern filterRegex
      (Builder (fun text =>
         conditions <- extractWhereConditions text columnNames ;;
         Normal ("SELECT * FROM " ++ table ++ " WHERE " ++ orNull conditions)))
      "Filter records with conditions";
    mkPattern showWhereRegex
      (Builder (fun text =>
         m <- deref (exec true showWhereInner text) ;;
         let columns := extractColumns (group m 1) columnNames in
         conditions <- extractWhereConditions text columnNames ;;
         Normal ("SELECT " ++ columns ++ " FROM " ++ table ++ " WHERE " ++ orNull conditions)))
      "Select specific columns with conditions";
    mkPattern onlyRegex
      (Builder (fun text =>
         m <- deref (exec true onlyInner text) ;;
         let columns := extractColumns (group m 1) columnNames in
         Normal ("SELECT " ++ columns ++ " FROM " ++ table)))
      "Select specific columns";
    mkPattern orderTrigger
      (Builder (fun text =>
         orderBy <- extractOrderBy text columnNames ;;
         conditions <- extractWhereConditions text columnNames ;;
         let whereClause := whereClauseOf conditions in
         Normal ("SELECT * FROM " ++ table ++ " " ++ whereClause ++ " " ++ orderBy)))
      "Select with ordering";
    mkPattern (aggregateTrigger ["avg"; "average"; "mean"])
      (Builder (aggregateBuilder table columnNames ["avg"; "average"; "mean"] "AVG" "average"))
      "Calculate average";
    mkPattern (aggregateTrigger ["sum"; "total"])
      (Builder (aggregateBuilder table columnNames ["sum"; "total"] "SUM" "total"))
      "Calculate sum";
    mkPattern (aggregateTrigger ["max"; "maximum"; "highest"; "largest"])
      (Builder (aggregateBuilder table columnNames
                  ["max"; "maximum"; "highest"; "largest"] "MAX" "max"))
      "Find maximum value";
    mkPattern (aggregateTrigger ["min"; "minimum"; "lowest"; "smallest"])
      (Builder (aggregateBuilder table columnNames
                  ["min"; "minimum"; "lowest"; "smallest"] "MIN" "min"))
      "Find minimum value";
    mkPattern limitTrigger
      (Builder (fun text =>
         let limit := extractLimit text in
         conditions <- extractWhereConditions text columnNames ;;
         let whereClause := whereClauseOf conditions in
         Normal ("SELECT * FROM " ++ table ++ " " ++ whereClause ++ " LIMIT " ++ limit)))
      "Select with limit" ].

(** The substrings whose presence keeps the safety limit away. *)
Definition limitExempt (sql : string) : bool :=
  includes (toLowerCase sql) "limit" ||
  includes (toLowerCase sql) "count(" ||
  includes (toLowerCase sql) "avg(" ||
  includes (toLowerCase sql) "sum(" ||
  includes (toLowerCase sql) "max(" ||
  includes (toLowerCase sql) "min(".

(** Add LIMIT for safety if not already present *)
Definition addLimit (sql : string) : string :=
  if negb (limitExempt sql) then sql ++ " LIMIT 100" else sql.

(** [pattern.sql(text)] or [pattern.sql], by the type of the field. *)
Definition sqlOf (p : pattern) (text : string) : completion string :=
  match sql p with
  | Builder f => f text
  | Static q => Normal q
  end.

(** Try to match patterns in order.  [Normal (Some r)] is a [return r]
    from inside the loop, [Normal None] the loop running to its end. *)
Fixpoint tryPatterns (ps : list pattern) (lowerText text : string)
  : completion (option result) :=
  match ps with
  | [] => Normal None
  | p :: ps' =>
      if test true (pattern_regex p) lowerText then
        tryCatch
          (q <- sqlOf p text ;; Normal (Some (mkResult (addLimit q) None)))
          (fun _ => tryPatterns ps' lowerText text) (* Try next pattern if this one fails *)
      else tryPatterns ps' lowerText text
  end.

Definition warning : string := "Could not understand query, showing sample data".

(** Default fallback - try to extract conditions *)
Definition fallback (text table : string) (columnNames : list string) : completion result :=
  tryCatch
    (conditions <- extractWhereConditions text columnNames ;;
     Normal (mkResult
               (match conditions with
                | Some c =>
                    if truthy c then "SELECT * FROM " ++ table ++ " WHERE " ++ c ++ " LIMIT 100"
                    else "SELECT * FROM " ++ table ++ " LIMIT 100"
                | None => "SELECT * FROM " ++ table ++ " LIMIT 100"
                end)
               None))
    (fun _ => Normal (mkResult ("SELECT * FROM " ++ table ++ " LIMIT 100") (Some warning))).

Definition generateSQLFromText (text table : string) (columnNames : list string)
  : completion result :=
  let lowerText := trim (toLowerCase text) in
  found <- tryPatterns (patterns table columnNames) lowerText text ;;
  match found with
  | Some r => Normal r
  | None => fallback text table columnNames
  end.

(* ===================================================================== *)
(** ** The request handlers of the server *)
(* ===================================================================== *)

Module Server.

(** A request field that carries a string or is absent.  An absent field
    and the empty string are both falsy. *)
Definition falsy (field : option string) : bool :=
  match field with Some t => negb (truthy t) | None => true end.

(** What the database driver hands to a callback: [err], or the rows. *)
Inductive dbResult (A : Type) : Type :=
| DbError (message : string)
| DbOk (value : A).
Arguments DbError {A} message.
Arguments DbOk {A} value.

(** A row of [PRAGMA table_info], as far as the handlers read it. *)
Record columnInfo : Type := mkColumnInfo {
  name : string;
  type : string
}.

(** A connection, seen through [db.all]: on a [PRAGMA table_info]
    statement, whose rows the handlers read field by field, and on any
    other statement, whose rows they pass on untouched. *)
Record connection (Rows : Type) : Type := mkConnection {
  tableInfo : string -> dbResult (list columnInfo);
  all : string -> dbResult Rows
}.
Arguments tableInfo {Rows} c _.
Arguments all {Rows} c _.

(** *** POST /convert *)

Inductive convertResponse (Rows : Type) : Type :=
| ConvertError (status : nat) (error : string)
| ConvertOk (original_text sql_query : string) (results : Rows).
Arguments ConvertError {Rows} status error.
Arguments ConvertOk {Rows} original_text sql_query results.

Definition convert {Rows : Type} (getDBConnection : string -> connection Rows)
           (text database table : option string) : completion (convertResponse Rows) :=
  if falsy text || falsy database || falsy table
  then Normal (ConvertError 400 "Text, database, and table are required")
  else
    let text := orUndefined text in
    let database := orUndefined database in
    let table := orUndefined table in
    let db := getDBConnection database in
    (* First, get table schema to understand available columns *)
    match tableInfo db ("PRAGMA table_info(" ++ table ++ ")") with
    | DbError message =>
        Normal (ConvertError 500 ("Failed to get table schema: " ++ message))
    | DbOk columns =>
        let columnNames := map name columns in
        (* Generate SQL based on natural language *)
        r <- generateSQLFromText text table columnNames ;;
        if match error r with Some e => truthy e | None => false end
        then Normal (ConvertError 400 (orUndefined (error r)))
        else
          (* Execute the generated SQL *)
          match all db (sqlQuery r) with
          | DbError message => Normal (ConvertError 500 ("SQL Error: " ++ message))
          | DbOk rows => Normal (ConvertOk text (sqlQuery r) rows)
          end
    end.

(** *** POST /query *)

(** Check if it's a SELECT query or other type *)
Definition isSelectQuery (sql : string) : bool :=
  startsWith (toLowerCase (trim sql)) "select".

(** *** POST /data/:database/:table and PUT /data/:database/:table/:id *)

(** What a data handler does once the schema is known: answer with an
    error, or hand a statement and its bound values to [db.run]. *)
Inductive submission (Param : Type) : Type :=
| Rejected (status : nat) (error : string)
| Submitted (sql : string) (values : list Param).
Arguments Rejected {Param} status error.
Arguments Submitted {Param} sql values.

Section Data.

(** The values of a data object are whatever JSON the client sent. *)
Variable Value : Type.

(** A data object, as the list of its own properties in enumeration
    order: [Object.keys] and [Object.values] are the two projections. *)
Definition dataObject : Type := list (string * Value).

(** [data[col]]: [None] is [undefined]. *)
Fixpoint property (col : string) (data : dataObject) : option Value :=
  match data with
  | [] => None
  | (k, v) :: data' => if String.eqb k col then Some v else property col data'
  end.

(** [data] is [None] when the body has no [data] or one that is not an
    object; [schema] is what [PRAGMA table_info] gave. *)
Definition insertData (table : string) (data : option dataObject)
           (schema : dbResult (list columnInfo)) : submission (option Value) :=
  match data with
  | None => Rejected 400 "Data object is required"
  | Some data =>
      match schema with
      | DbError message => Rejected 500 message
      | DbOk columns =>
          let columnNames := map name columns in
          let providedColumns := map fst data in
          (* Validate that all provided columns exist in the table *)
          let invalidColumns :=
            filter (fun col => negb (existsb (String.eqb col) columnNames)) providedColumns in
          match invalidColumns with
          | _ :: _ => Rejected 400 ("Invalid columns: " ++ join ", " invalidColumns)
          | [] =>
              (* Build INSERT query *)
              let columnsStr := join ", " providedColumns in
              let placeholders := join ", " (map (fun _ => "?") providedColumns) in
              let values := map (fun col => property col data) providedColumns in
              Submitted ("INSERT INTO " ++ table ++ " (" ++ columnsStr ++ ") VALUES (" ++
                         placeholders ++ ")")
                        values
          end
      end
  end.

(** A bound value of the UPDATE statement: a value of the data object, or
    the row id taken from the path. *)
Inductive updateParam : Type :=
| DataValue (v : Value)
| RowId (id : string).

Definition updateData (table id : string) (data : option dataObject)
  : submission updateParam :=
  match data with
  | None => Rejected 400 "Data object is required"
  | Some data =>
      (* Build UPDATE query *)
      let setClause := join ", " (map (fun col => col ++ " = ?") (map fst data)) in
      let values := (map DataValue (map snd data) ++ [RowId id])%list in
      Submitted ("UPDATE " ++ table ++ " SET " ++ setClause ++ " WHERE rowid = ?") values
  end.

End Data.

Arguments property {Value} col data.
Arguments insertData {Value} table data schema.
Arguments updateData {Value} table id data.
Arguments DataValue {Value} v.
Arguments RowId {Value} id.

(** *** POST /tables *)

(** A column of the request body. *)
Record columnSpec : Type := mkColumnSpec {
  column_name : string;
  data_type : string;
  is_primary_key : bool;
  is_nullable : bool;
  description : string
}.

Definition columnDefinition (col : columnSpec) : string :=
  let definition := column_name col ++ " " ++ data_type col in
  let definition := if is_primary_key col then definition ++ " PRIMARY KEY" else definition in
  if negb (is_nullable col) then definition ++ " NOT NULL" else definition.

(** The handler up to its first statement: the guard, then the CREATE
    TABLE handed to [db.run]. *)
Definition createTable (database table_name : option string)
           (columns : option (list columnSpec)) : submission unit :=
  match columns with
  | None => Rejected 400 "Database name, table name, and columns are required"
  | Some columns =>
      if falsy database || falsy table_name
      then Rejected 400 "Database name, table name, and columns are required"
      else
        (* Build CREATE TABLE query *)
        let columnDefinitions := join ", " (map columnDefinition columns) in
        Submitted ("CREATE TABLE IF NOT EXISTS " ++ orUndefined table_name ++
                   " (" ++ columnDefinitions ++ ")") []
  end.

(** *** getDatabases *)

(** [s.endsWith(suffix)] *)
Fixpoint endsWith (s suffix : string) : bool :=
  String.eqb s suffix ||
  match s with
  | EmptyString => false
  | String _ s' => endsWith s' suffix
  end.

Fixpoint dropChars (n : nat) (s : string) : string :=
  match n, s with
  | S n', String _ s' => dropChars n' s'
  | _, _ => s
  end.

(** [s.replace(pattern, replacement)] for a string pattern and a
    replacement without [$]: the first occurrence is replaced. *)
Fixpoint replace (pattern replacement s : string) : string :=
  if startsWith s pattern then replacement ++ dropChars (String.length pattern) s
  else
    match s with
    | EmptyString => EmptyString
    | String c s' => String c (replace pattern replacement s')
    end.

(** [files] is what [fs.readdirSync(DB_DIR)] returns. *)
Definition getDatabases (files : list string) : list string :=
  map (fun file => replace ".db" "" file)
      (filter (fun file => endsWith file ".db") files).

(** *** getDBConnection *)

(** An opened database handle: the name it was opened for and the rank of
    its creation, which tells the handle objects apart. *)
Record handle : Type := mkHandle {
  handleName : string;
  handleId : nat
}.

(** The connection store: the [dbConnections] map, as its entries in
    insertion order, and the number of handles created so far. *)
Record connections : Type := mkConnections {
  dbConnections : list (string * handle);
  opened : nat
}.

Fixpoint mapGet (dbName : string) (entries : list (string * handle)) : option handle :=
  match entries with
  | [] => None
  | (k, h) :: entries' => if String.eqb k dbName then Some h else mapGet dbName entries'
  end.

(** [map.set(dbName, db)] on the entries of a [Map]: an existing key
    keeps its place and takes the new value; a new key goes last. *)
Fixpoint mapSet (dbName : string) (db : handle) (entries : list (string * handle))
  : list (string * handle) :=
  match entries with
  | [] => [(dbName, db)]
  | (k, h) :: entries' =>
      if String.eqb k dbName then (k, db) :: entries'
      else (k, h) :: mapSet dbName db entries'
  end.

(** Helper function to get database connection *)
Definition getDBConnection (dbName : string) (st : connections)
  : option handle * connections :=
  let st' :=
    match mapGet dbName (dbConnections st) with
    | Some _ => st
    | None =>
        let db := mkHandle dbName (opened st) in
        mkConnections (mapSet dbName db (dbConnections st)) (S (opened st))
    end in
  (mapGet dbName (dbConnections st'), st').

End Server.

(* ===================================================================== *)
(** ** The forms of the client *)
(* ===================================================================== *)

Module App.

(** *** The column list of the table form *)

Record column : Type := mkColumn {
  name : string;
  type : string;
  primaryKey : bool;
  nullable : bool
}.

(** The columns a fresh form starts with. *)
Definition initialColumns : list column := [mkColumn "id" "INTEGER" true false].

Definition addColumn (columns : list column) : list column :=
  (columns ++ [mkColumn "" "TEXT" false true])%list.

(** [xs.filter((_, i) => i !== index)], counting from [i]. *)
Fixpoint dropIndexFrom (i index : nat) (columns : list column) : list column :=
  match columns with
  | [] => []
  | col :: columns' =>
      if Nat.eqb i index then dropIndexFrom (S i) index columns'
      else col :: dropIndexFrom (S i) index columns'
  end.

Definition removeColumn (index : nat) (columns : list column) : list column :=
  if Nat.eqb (List.length columns) 1 then columns
  else dropIndexFrom 0 index columns.

(** The four calls the form makes: [updateColumn(index, field, value)]
    with [field] one of [name], [type], [primaryKey], [nullable]. *)
Inductive change : Type :=
| SetName (value : string)
| SetType (value : string)
| SetPrimaryKey (value : bool)
| SetNullable (value : bool).

Definition assign (ch : change) (col : column) : column :=
  match ch with
  | SetName v => mkColumn v (type col) (primaryKey col) (nullable col)
  | SetType v => mkColumn (name col) v (primaryKey col) (nullable col)
  | SetPrimaryKey v => mkColumn (name col) (type col) v (nullable col)
  | SetNullable v => mkColumn (name col) (type col) (primaryKey col) v
  end.

(** [xs.forEach((col, i) => ...)] rebuilding the list, counting from [i]. *)
Fixpoint mapIndexFrom (i : nat) (f : nat -> column -> column) (columns : list column)
  : list column :=
  match columns with
  | [] => []
  | col :: columns' => f i col :: mapIndexFrom (S i) f columns'
  end.

(** [newColumns[index][field] = value] throws when there is no column at
    [index].  The column objects are shared with the previous state; the
    value returned is the new [columns] array. *)
Definition updateColumn (index : nat) (ch : change) (columns : list column)
  : completion (list column) :=
  _ <- deref (nth_error columns index) ;;
  let newColumns :=
    mapIndexFrom 0 (fun i col => if Nat.eqb i index then assign ch col else col) columns in
  Normal
    match ch with
    | SetPrimaryKey true =>
        (* Ensure only one primary key *)
        mapIndexFrom 0
          (fun i col =>
             if negb (Nat.eqb i index)
             then mkColumn (name col) (type col) false (nullable col)
             else col)
          newColumns
    | _ => newColumns
    end.

(** *** createTable *)

Record tableForm : Type := mkTableForm {
  form_name : string;
  form_description : string;
  columns : list column
}.

(** The body posted to [/tables]. *)
Record tableData : Type := mkTableData {
  database : string;
  table_name : string;
  description : string;
  body_columns : list Server.columnSpec
}.

(** [inl] is the alert shown when nothing is sent. *)
Definition createTable (selectedDatabase : string) (newTable : tableForm)
  : string + tableData :=
  if negb (truthy selectedDatabase) then inl "Please select a database first"
  else if negb (truthy (trim (form_name newTable))) then inl "Please enter a table name"
  else if existsb (fun col => negb (truthy (trim (name col)))) (columns newTable)
       then inl "Please fill in all column names"
  else
    inr (mkTableData selectedDatabase (form_name newTable) (form_description newTable)
           (map (fun col =>
                   Server.mkColumnSpec (name col) (type col) (primaryKey col)
                                       (nullable col) "")
                (columns newTable))).

(** *** executeQuery *)

(** The body posted to [/convert]: [text], [database], [table]. *)
Definition executeQuery (selectedDatabase selectedTable query : string)
  : string + (string * string * string) :=
  if negb (truthy selectedDatabase) || negb (truthy selectedTable) ||
     negb (truthy (trim query))
  then inl "Please select a database, table, and enter a query"
  else inr (query, selectedDatabase, selectedTable).

End App.

(* ===================================================================== *)
(** ** Reference definitions *)
(* ===================================================================== *)

(** The column resolver as the specification words it, to be compared with
    [findBestColumnMatch]: the first column equal to the word up to case;
    failing that the first column containing the word; failing that the
    first column contained in the word; else [null]. *)
Definition columnResolverSpec (word : string) (columnNames : list string) : option string :=
  let lowerWord := toLowerCase word in
  match find (fun col => String.eqb (toLowerCase col) lowerWord) columnNames with
  | Some c => Some c
  | None =>
      match find (fun col => includes (toLowerCase col) lowerWord) columnNames with
      | Some c => Some c
      | None => find (fun col => includes lowerWord (toLowerCase col)) columnNames
      end
  end.

(** The column, if any, that the word following [keyword] in [text]
    resolves to. *)
Definition resolvedAfter (text : string) (columnNames : list string) (keyword : string)
  : option string :=
  match exec true (aggregateRegex keyword) text with
  | Some m =>
      match group m 1 with
      | Some word => findBestColumnMatch word columnNames
      | None => None
      end
  | None => None
  end.

(** The first keyword, in order, after which a word resolves to [c]. *)
Definition firstResolved (text : string) (columnNames keywords : list string) (c : string)
  : Prop :=
  exists pre keyword post,
    keywords = (pre ++ keyword :: post)%list /\
    Forall (fun k => resolvedAfter text columnNames k = None) pre /\
    resolvedAfter text columnNames keyword = Some c.

Definition noneResolved (text : string) (columnNames keywords : list string) : Prop :=
  Forall (fun k => resolvedAfter text columnNames k = None) keywords.

(** The position and the remaining input of a match state move together. *)
Definition conserves (x y : state) : Prop :=
  endIndex y + String.length (rest y) = endIndex x + String.length (rest x).

(** A matcher never moves backwards. *)
Definition forward (m : state -> list state) : Prop :=
  forall x y, In y (m x) -> conserves x y /\ endIndex x <= endIndex y.

(** What is left for [splitLoop] to do: two steps for every remaining
    position, one less when the piece being collected starts at the
    position being tried. *)
Definition splitMeasure (p q : nat) (sq : string) : nat :=
  2 * String.length sq + (if Nat.eqb p q then 1 else 2).

(** A rule whose trigger fails, or whose builder throws, is passed over. *)
Definition passedOver (lowerText text : string) (p : pattern) : Prop :=
  test true (pattern_regex p) lowerText = false \/ exists e, sqlOf p text = Throw e.

(** A rule the loop can use: its trigger matches the lower-cased phrase
    and its builder returns normally on the phrase. *)
Definition usable (lowerText text : string) (p : pattern) : bool :=
  test true (pattern_regex p) lowerText &&
  match sqlOf p text with Normal _ => true | Throw _ => false end.

(** The result built from the first usable rule of a rule list. *)
Definition firstUsable (ps : list pattern) (lowerText text : string) : option result :=
  match find (usable lowerText text) ps with
  | Some p =>
      match sqlOf p text with
      | Normal q => Some (mkResult (addLimit q) None)
      | Throw _ => None
      end
  | None => None
  end.

(** The shape of every statement the translator builds. *)
Definition selectFrom (table q : string) : Prop :=
  exists columns tail, q = "SELECT " ++ columns ++ " FROM " ++ table ++ tail.

(** *** What a match consumes and captures *)

(** The text a matcher consumed between two match states. *)
Definition consumed (x y : state) : string :=
  substring 0 (endIndex y - endIndex x) (rest x).

(** From [x] to [y] the matcher moved over exactly [u]. *)
Definition advances (x y : state) (u : string) : Prop :=
  rest x = u ++ rest y /\ endIndex y = endIndex x + String.length u.

(** Every value bound to group [k] satisfies [P]. *)
Definition capturesIn (k : nat) (P : string -> Prop) (caps : list (nat * string)) : Prop :=
  forall v, lookup k caps = Some v -> P v.

(** Whatever the body of a group numbered [k] consumes satisfies [P]. *)
Fixpoint groupSound (ic : bool) (k : nat) (P : string -> Prop) (r : regex) : Prop :=
  match r with
  | Group j r1 =>
      (j = k -> forall x y, In y (run ic r1 x) -> P (consumed x y)) /\
      groupSound ic k P r1
  | Seq r1 r2 | Alt r1 r2 => groupSound ic k P r1 /\ groupSound ic k P r2
  | Repeat _ _ _ r1 => groupSound ic k P r1
  | _ => True
  end.

(** The 256 code units. *)
Definition allAscii : list ascii := map ascii_of_nat (seq 0 256).

(** The predicate a character class stands for. *)
Definition classPredicate (ic invert : bool) (atoms : list classAtom) (ch : ascii) : bool :=
  xorb invert (existsb (atomMatches ic ch) atoms).

(** A non-empty string of characters that all satisfy [p]. *)
Definition someChars (p : ascii -> bool) (v : string) : Prop :=
  v <> "" /\ allChars p v = true.

(** Digits and dots: what [[\d.]+] captures. *)
Definition isNumberChar (ch : ascii) : bool := isDigit ch || Ascii.eqb ch ".".

(** Word characters and dots: what [[\w.]+] captures. *)
Definition isValueChar (ch : ascii) : bool := isWordChar ch || Ascii.eqb ch ".".

(** Neither a quote character (single or double) nor white space: what
    the negated class of the LIKE and named templates captures. *)
Definition isUnquotedChar (ch : ascii) : bool :=
  negb (Ascii.eqb ch apostrophe || Ascii.eqb ch doubleQuote || isWhiteSpace ch).

(** *** The conditions the extractor can produce *)

Definition comparisonOperators : list string := [">"; "<"; "="; ">="; "<="; "=="].

(** One condition of each of the six templates, over a column of the
    table and a value of the character set the template captures. *)
Inductive conditionShape (columnNames : list string) : string -> Prop :=
| GreaterCondition (c v : string) :
    In c columnNames -> someChars isNumberChar v ->
    conditionShape columnNames (c ++ " > " ++ v)
| LessCondition (c v : string) :
    In c columnNames -> someChars isNumberChar v ->
    conditionShape columnNames (c ++ " < " ++ v)
| EqualCondition (c v : string) :
    In c columnNames -> someChars isValueChar v ->
    conditionShape columnNames (c ++ " = " ++ (if isNaN v then quoted v else v))
| LikeCondition (c v : string) :
    In c columnNames -> someChars isUnquotedChar v ->
    conditionShape columnNames (c ++ " LIKE '%" ++ v ++ "%'")
| CompareCondition (c op v : string) :
    In c columnNames -> In op comparisonOperators -> someChars isValueChar v ->
    conditionShape columnNames
      (c ++ " " ++ op ++ " " ++
       (if isNaN v && negb (existsb (String.eqb op) [">"; "<"; ">="; "<="])
        then quoted v else v))
| NamedCondition (c v : string) :
    In c columnNames -> someChars isUnquotedChar v ->
    conditionShape columnNames (c ++ " = " ++ quoted v).

(** The direction words of an ORDER BY clause. *)
Definition isDirection (d : string) : Prop := d = "ASC" \/ d = "DESC".

(** *** Handlers and forms *)

(** The number of occurrences of a character. *)
Fixpoint countChar (c : ascii) (t : string) : nat :=
  match t with
  | EmptyString => 0
  | String d t' => (if Ascii.eqb c d then 1 else 0) + countChar c t'
  end.

(** The connection store after a series of [getDBConnection] calls. *)
Fixpoint afterCalls (dbNames : list string) (st : Server.connections) : Server.connections :=
  match dbNames with
  | [] => st
  | dbName :: dbNames' => afterCalls dbNames' (snd (Server.getDBConnection dbName st))
  end.

(** The column lists the table form can show: the one a fresh or reset
    form starts with, and what an event handler that returns normally
    makes of one. *)
Inductive formColumns : list App.column -> Prop :=
| FormInitial : formColumns App.initialColumns
| FormAdd (cols : list App.column) :
    formColumns cols -> formColumns (App.addColumn cols)
| FormRemove (index : nat) (cols : list App.column) :
    formColumns cols -> formColumns (App.removeColumn index cols)
| FormUpdate (index : nat) (ch : App.change) (cols cols' : list App.column) :
    formColumns cols -> App.updateColumn index ch cols = Normal cols' ->
    formColumns cols'.

Definition primaryKeys (cols : list App.column) : nat :=
  List.length (filter App.primaryKey cols).

(* ===================================================================== *)
(** * Properties *)
(* ===================================================================== *)

(** ** Strings *)

Section StringFacts.

Lemma startsWith_app (p t : string) : startsWith (p ++ t) p = true.
Proof.
  induction p as [|c p IH]; simpl.
  - destruct t; reflexivity.
  - rewrite Ascii.eqb_refl. exact IH.
Qed.

Lemma includes_startsWith (t u : string) :
  startsWith t u = true -> includes t u = true.
Proof. intro H. destruct t; cbn [includes]; rewrite H; reflexivity. Qed.

Lemma includes_app (a u t : string) : includes (a ++ u ++ t) u = true.
Proof.
  induction a as [|c a IH]; simpl.
  - apply includes_startsWith, startsWith_app.
  - rewrite IH. apply orb_true_r.
Qed.

Lemma append_assoc (a u t : string) : (a ++ u) ++ t = a ++ u ++ t.
Proof. induction a as [|c a IH]; simpl; [reflexivity | now rewrite IH]. Qed.

Lemma truthy_nonempty (t : string) : truthy t = true <-> t <> "".
Proof. destruct t; simpl; split; intro H; congruence. Qed.

Lemma hd_error_filter {A : Type} (p : A -> bool) (l : list A) :
  hd_error (filter p l) = find p l.
Proof.
  induction l as [|a l IH]; simpl; [reflexivity|].
  destruct (p a); simpl; [reflexivity | exact IH].
Qed.

End StringFacts.

(** ** The matcher *)

Section MatcherFacts.

Variable ic : bool.

Lemma lookup_clear (k : nat) (ks : list nat) (caps : list (nat * string)) :
  memNat k ks = false ->
  lookup k (filter (fun kv => negb (memNat (fst kv) ks)) caps) = lookup k caps.
Proof.
  intro Hk. induction caps as [|[j v] caps IH]; simpl; [reflexivity|].
  destruct (memNat j ks) eqn:Hj; simpl.
  - destruct (Nat.eqb_spec j k) as [->|_]; [congruence | exact IH].
  - destruct (Nat.eqb j k); [reflexivity | exact IH].
Qed.

Lemma consume_captures (p : ascii -> bool) (x y : state) :
  In y (consume p x) -> captures y = captures x.
Proof.
  unfold consume. destruct (rest x) as [|ch t]; [intros []|].
  destruct (p ch); [|intros []].
  intros [<-|[]]. reflexivity.
Qed.

Lemma memNat_app (k : nat) (a c : list nat) :
  memNat k (a ++ c) = memNat k a || memNat k c.
Proof. unfold memNat. apply existsb_app. Qed.

(** The body of a quantifier leaves the groups outside it alone; so does
    the quantifier. *)
Lemma repeatMatcher_preserves (m : state -> list state) (ks : list nat) (k : nat) :
  memNat k ks = false ->
  (forall x y, In y (m x) -> lookup k (captures y) = lookup k (captures x)) ->
  forall greedy fuel min max x y,
    In y (repeatMatcher m ks greedy fuel min max x) ->
    lookup k (captures y) = lookup k (captures x).
Proof.
  intros Hk Hm greedy fuel.
  induction fuel as [|fuel IH]; intros min max x y; simpl.
  - destruct (maxIsZero max); intros [<-|[]]; reflexivity.
  - destruct (maxIsZero max); [intros [<-|[]]; reflexivity|].
    assert (Hit : forall z,
               In z (flat_map
                       (fun y0 =>
                          if Nat.eqb min 0 && Nat.eqb (endIndex y0) (endIndex x) then []
                          else repeatMatcher m ks greedy fuel (Nat.pred min) (decMax max) y0)
                       (m (clearCaptures ks x))) ->
               lookup k (captures z) = lookup k (captures x)).
    { intros z Hz. apply in_flat_map in Hz as [y0 [Hy0 Hz]].
      destruct (Nat.eqb min 0 && Nat.eqb (endIndex y0) (endIndex x)); [destruct Hz|].
      rewrite (IH _ _ _ _ Hz), (Hm _ _ Hy0). simpl. now apply lookup_clear. }
    destruct (negb (Nat.eqb min 0)); [apply Hit|].
    destruct greedy.
    + intro H. apply in_app_or in H as [H|[<-|[]]]; [now apply Hit | reflexivity].
    + intros [<-|H]; [reflexivity | now apply Hit].
Qed.

Lemma run_preserves (r : regex) (k : nat) :
  memNat k (groupsOf r) = false ->
  forall x y, In y (run ic r x) -> lookup k (captures y) = lookup k (captures x).
Proof.
  induction r as [ |c| |inv atoms| |r1 IH1 r2 IH2|r1 IH1 r2 IH2|j r1 IH1|mn mx g r1 IH1];
    simpl; intros Hk x y Hy.
  - destruct Hy as [<-|[]]. reflexivity.
  - now rewrite (consume_captures _ _ _ Hy).
  - now rewrite (consume_captures _ _ _ Hy).
  - now rewrite (consume_captures _ _ _ Hy).
  - destruct (xorb _ _); [destruct Hy as [<-|[]]; reflexivity | destruct Hy].
  - rewrite memNat_app in Hk. apply orb_false_iff in Hk as [Hk1 Hk2].
    apply in_flat_map in Hy as [z [Hz Hy]].
    rewrite (IH2 Hk2 _ _ Hy). now apply IH1.
  - rewrite memNat_app in Hk. apply orb_false_iff in Hk as [Hk1 Hk2].
    apply in_app_or in Hy as [Hy|Hy]; [now apply IH1 | now apply IH2].
  - apply orb_false_iff in Hk as [Hjk Hk1].
    apply in_map_iff in Hy as [z [<- Hz]]. simpl.
    rewrite Nat.eqb_sym, Hjk. now apply IH1.
  - eapply repeatMatcher_preserves; eauto.
Qed.

(** A defined group is set in every result. *)
Lemma run_defines (r : regex) (k : nat) :
  defines k r = true ->
  forall x y, In y (run ic r x) -> lookup k (captures y) <> None.
Proof.
  induction r as [ |c| |inv atoms| |r1 IH1 r2 IH2|r1 IH1 r2 IH2|j r1 IH1|mn mx g r1 IH1];
    simpl; intros Hd x y Hy; try discriminate.
  - apply in_flat_map in Hy as [z [Hz Hy]].
    apply orb_true_iff in Hd as [Hd|Hd].
    + apply andb_true_iff in Hd as [Hd1 Hn]. apply negb_true_iff in Hn.
      rewrite (run_preserves r2 k Hn _ _ Hy). now apply (IH1 Hd1 x).
    + now apply (IH2 Hd z).
  - apply andb_true_iff in Hd as [Hd1 Hd2].
    apply in_app_or in Hy as [Hy|Hy]; [now apply (IH1 Hd1 x) | now apply (IH2 Hd2 x)].
  - apply in_map_iff in Hy as [z [<- Hz]]. simpl.
    destruct (Nat.eqb j k) eqn:E; [discriminate|].
    simpl in Hd. now apply (IH1 Hd x).
Qed.

Lemma execFrom_defines (r : regex) (k : nat) :
  defines k r = true ->
  forall t p i m, execFrom ic r p t i = Some m -> lookup k (groups m) <> None.
Proof.
  intros Hd t. induction t as [|c t IH]; intros p i m; simpl; unfold matchAt.
  - destruct (run ic r _) as [|y l] eqn:E; [discriminate|].
    intros [= <-]. simpl. apply (run_defines r k Hd (mkState p "" i [])).
    rewrite E. now left.
  - destruct (run ic r _) as [|y l] eqn:E.
    + apply IH.
    + intros [= <-]. simpl. apply (run_defines r k Hd (mkState p (String c t) i [])).
      rewrite E. now left.
Qed.

(** A successful [exec] yields a string for every defined group. *)
Lemma exec_defines (r : regex) (k : nat) (t : string) (m : matchResult) :
  defines k r = true -> exec ic r t = Some m -> exists v, group m k = Some v.
Proof.
  intros Hd He. destruct k as [|k]; simpl.
  - eauto.
  - pose proof (execFrom_defines r (S k) Hd _ _ _ _ He) as H.
    destruct (lookup (S k) (groups m)); [eauto | congruence].
Qed.

End MatcherFacts.

(** ** The depth bound of the quantifier *)

Section FuelFacts.

Variable ic : bool.

Lemma consume_conserves (p : ascii -> bool) (x y : state) :
  In y (consume p x) -> conserves x y.
Proof.
  unfold consume, conserves. destruct (rest x) as [|ch t]; [intros []|].
  destruct (p ch); [|intros []].
  intros [<-|[]]. simpl. lia.
Qed.

Lemma repeatMatcher_conserves (m : state -> list state) (ks : list nat) :
  (forall x y, In y (m x) -> conserves x y) ->
  forall greedy fuel min max x y,
    In y (repeatMatcher m ks greedy fuel min max x) -> conserves x y.
Proof.
  intros Hm greedy fuel.
  induction fuel as [|fuel IH]; intros min max x y; simpl.
  - destruct (maxIsZero max); intros [<-|[]]; reflexivity.
  - destruct (maxIsZero max); [intros [<-|[]]; reflexivity|].
    assert (Hit : forall z,
               In z (flat_map
                       (fun y0 =>
                          if Nat.eqb min 0 && Nat.eqb (endIndex y0) (endIndex x) then []
                          else repeatMatcher m ks greedy fuel (Nat.pred min) (decMax max) y0)
                       (m (clearCaptures ks x))) ->
               conserves x z).
    { intros z Hz. apply in_flat_map in Hz as [y0 [Hy0 Hz]].
      destruct (Nat.eqb min 0 && Nat.eqb (endIndex y0) (endIndex x)); [destruct Hz|].
      apply IH in Hz. apply Hm in Hy0. unfold conserves in *. simpl in Hy0. lia. }
    destruct (negb (Nat.eqb min 0)); [apply Hit|].
    destruct greedy.
    + intro H. apply in_app_or in H as [H|[<-|[]]]; [now apply Hit | reflexivity].
    + intros [<-|H]; [reflexivity | now apply Hit].
Qed.

Lemma run_conserves (r : regex) (x y : state) :
  In y (run ic r x) -> conserves x y.
Proof.
  revert x y.
  induction r as [ |c| |inv atoms| |r1 IH1 r2 IH2|r1 IH1 r2 IH2|j r1 IH1|mn mx g r1 IH1];
    simpl; intros x y Hy.
  - destruct Hy as [<-|[]]. reflexivity.
  - now apply consume_conserves in Hy.
  - now apply consume_conserves in Hy.
  - now apply consume_conserves in Hy.
  - destruct (xorb _ _); [destruct Hy as [<-|[]]; reflexivity | destruct Hy].
  - apply in_flat_map in Hy as [z [Hz Hy]].
    apply IH1 in Hz. apply IH2 in Hy. unfold conserves in *. lia.
  - apply in_app_or in Hy as [Hy|Hy]; [now apply IH1 | now apply IH2].
  - apply in_map_iff in Hy as [z [<- Hz]]. apply IH1 in Hz. exact Hz.
  - eapply repeatMatcher_conserves; eauto.
Qed.

Lemma flat_map_ext_in {A B : Type} (f g : A -> list B) (l : list A) :
  (forall a, In a l -> f a = g a) -> flat_map f l = flat_map g l.
Proof.
  induction l as [|a l IH]; simpl; intro H; [reflexivity|].
  rewrite (H a (or_introl eq_refl)), IH; [reflexivity|].
  intros a' Ha'. apply H. now right.
Qed.

(** Any amount of fuel from [min + length (rest x)] on gives the same
    result: the bound used by [run] never cuts a repetition short. *)
Lemma repeatMatcher_fuel (m : state -> list state) (ks : list nat) (greedy : bool) :
  forward m ->
  forall fuel1 fuel2 min max x,
    min + String.length (rest x) <= fuel1 ->
    min + String.length (rest x) <= fuel2 ->
    repeatMatcher m ks greedy fuel1 min max x = repeatMatcher m ks greedy fuel2 min max x.
Proof.
  intros Hm fuel1.
  induction fuel1 as [|fuel1 IH]; intros fuel2 min max x H1 H2.
  - destruct fuel2 as [|fuel2]; [reflexivity|]. simpl.
    destruct (maxIsZero max); [reflexivity|].
    assert (min = 0) as -> by lia. simpl.
    rewrite (flat_map_ext_in _ (fun _ => [])).
    + destruct greedy; clear; induction (m (clearCaptures ks x)); simpl; auto.
    + intros y Hy. destruct (Hm _ _ Hy) as [Hc Hle]. unfold conserves in Hc. simpl in *.
      assert (endIndex y = endIndex x) as -> by lia.
      now rewrite Nat.eqb_refl.
  - destruct fuel2 as [|fuel2].
    + simpl. destruct (maxIsZero max); [reflexivity|].
      assert (min = 0) as -> by lia. simpl.
      rewrite (flat_map_ext_in _ (fun _ => [])).
      * destruct greedy; clear; induction (m (clearCaptures ks x)); simpl; auto.
      * intros y Hy. destruct (Hm _ _ Hy) as [Hc Hle]. unfold conserves in Hc. simpl in *.
        assert (endIndex y = endIndex x) as -> by lia.
        now rewrite Nat.eqb_refl.
    + simpl. destruct (maxIsZero max); [reflexivity|].
      rewrite (flat_map_ext_in _
                 (fun y =>
                    if Nat.eqb min 0 && Nat.eqb (endIndex y) (endIndex x) then []
                    else repeatMatcher m ks greedy fuel2 (Nat.pred min) (decMax max) y)).
      * reflexivity.
      * intros y Hy. destruct (Hm _ _ Hy) as [Hc Hle]. unfold conserves in Hc. simpl in *.
        destruct (Nat.eqb_spec min 0) as [->|Hmin]; simpl.
        -- destruct (Nat.eqb_spec (endIndex y) (endIndex x)); [reflexivity|].
           apply IH; simpl; lia.
        -- apply IH; lia.
Qed.

Lemma repeatMatcher_forward (m : state -> list state) (ks : list nat) :
  forward m ->
  forall greedy fuel min max, forward (repeatMatcher m ks greedy fuel min max).
Proof.
  intros Hm greedy fuel.
  induction fuel as [|fuel IH]; intros min max x y; simpl.
  - destruct (maxIsZero max); intros [<-|[]]; split; try reflexivity; lia.
  - destruct (maxIsZero max); [intros [<-|[]]; split; try reflexivity; lia|].
    assert (Hit : forall z,
               In z (flat_map
                       (fun y0 =>
                          if Nat.eqb min 0 && Nat.eqb (endIndex y0) (endIndex x) then []
                          else repeatMatcher m ks greedy fuel (Nat.pred min) (decMax max) y0)
                       (m (clearCaptures ks x))) ->
               conserves x z /\ endIndex x <= endIndex z).
    { intros z Hz. apply in_flat_map in Hz as [y0 [Hy0 Hz]].
      destruct (Nat.eqb min 0 && Nat.eqb (endIndex y0) (endIndex x)); [destruct Hz|].
      apply IH in Hz. apply Hm in Hy0. unfold conserves in *. simpl in Hy0. lia. }
    destruct (negb (Nat.eqb min 0)); [apply Hit|].
    destruct greedy.
    + intro H. apply in_app_or in H as [H|[<-|[]]];
        [now apply Hit | split; [reflexivity | lia]].
    + intros [<-|H]; [split; [reflexivity | lia] | now apply Hit].
Qed.

Lemma run_forward (r : regex) : forward (run ic r).
Proof.
  induction r as [ |c| |inv atoms| |r1 IH1 r2 IH2|r1 IH1 r2 IH2|j r1 IH1|mn mx g r1 IH1];
    intros x y Hy; (split; [now apply (run_conserves _ _ _ Hy)|]); simpl in Hy.
  - destruct Hy as [<-|[]]. lia.
  - unfold consume in Hy. destruct (rest x); [destruct Hy|].
    destruct (Ascii.eqb _ _); [destruct Hy as [<-|[]]; simpl; lia | destruct Hy].
  - unfold consume in Hy. destruct (rest x); [destruct Hy|].
    destruct (negb _); [destruct Hy as [<-|[]]; simpl; lia | destruct Hy].
  - unfold consume in Hy. destruct (rest x); [destruct Hy|].
    destruct (xorb _ _); [destruct Hy as [<-|[]]; simpl; lia | destruct Hy].
  - destruct (xorb _ _); [destruct Hy as [<-|[]]; lia | destruct Hy].
  - apply in_flat_map in Hy as [z [Hz Hy]].
    apply IH1 in Hz. apply IH2 in Hy. lia.
  - apply in_app_or in Hy as [Hy|Hy]; [now apply IH1 | now apply IH2].
  - apply in_map_iff in Hy as [z [<- Hz]]. apply IH1 in Hz. simpl. lia.
  - eapply repeatMatcher_forward; eauto.
Qed.

(** The quantifier of [run], with any larger bound. *)
Lemma run_Repeat_fuel (min : nat) (max : option nat) (greedy : bool) (r : regex)
      (x : state) (fuel : nat) :
  min + String.length (rest x) <= fuel ->
  run ic (Repeat min max greedy r) x =
  repeatMatcher (run ic r) (groupsOf r) greedy fuel min max x.
Proof.
  intro H. simpl. apply repeatMatcher_fuel; [apply run_forward | lia | exact H].
Qed.

End FuelFacts.

(** ** The step bound of [split] *)

Section SplitFacts.

Variable ic : bool.

Lemma matchAt_forward (r : regex) (pre : option ascii) (sq : string) (q e : nat)
      (m : matchResult) :
  matchAt ic r pre sq q = Some (e, m) -> q <= e <= q + String.length sq.
Proof.
  unfold matchAt. destruct (run ic r _) as [|y l] eqn:E; [discriminate|].
  intros [= <- _].
  destruct (run_forward ic r (mkState pre sq q []) y) as [Hc Hle].
  { rewrite E. now left. }
  unfold conserves in Hc. simpl in *. lia.
Qed.

Lemma substring_all (t : string) (n : nat) :
  String.length t <= n -> substring 0 n t = t.
Proof.
  revert n. induction t as [|c t IH]; intros [|n] H; simpl in *; try reflexivity; try lia.
  rewrite IH; [reflexivity | lia].
Qed.

Lemma substring_length_from (t : string) (k n : nat) :
  String.length t <= n -> String.length (substring k n t) = String.length t - k.
Proof.
  revert k. induction t as [|c t IH]; intros k H.
  - destruct k, n; reflexivity.
  - destruct k as [|k].
    + rewrite substring_all; [simpl; lia | exact H].
    + simpl. rewrite IH; [reflexivity | simpl in H; lia].
Qed.

(** Any step bound from [splitMeasure] on gives the same pieces. *)
Lemma splitLoop_fuel (r : regex) (fuel1 : nat) :
  forall fuel2 p sp q pre sq,
    splitMeasure p q sq <= fuel1 ->
    splitMeasure p q sq <= fuel2 ->
    splitLoop ic r fuel1 p sp q pre sq = splitLoop ic r fuel2 p sp q pre sq.
Proof.
  unfold splitMeasure.
  induction fuel1 as [|fuel1 IH]; intros fuel2 p sp q pre sq H1 H2.
  - destruct (Nat.eqb p q); lia.
  - destruct fuel2 as [|fuel2]; [destruct (Nat.eqb p q); lia|].
    simpl. destruct sq as [|c sq']; [reflexivity|].
    assert (Hadv : splitLoop ic r fuel1 p sp (S q) (Some c) sq' =
                   splitLoop ic r fuel2 p sp (S q) (Some c) sq').
    { simpl in H1, H2.
      apply IH; destruct (Nat.eqb p q), (Nat.eqb p (S q)); lia. }
    destruct (matchAt ic r pre (String c sq') q) as [[e m]|] eqn:E; [|exact Hadv].
    destruct (Nat.eqb_spec e p) as [_|Hep]; [exact Hadv|].
    f_equal. apply matchAt_forward in E.
    assert (Hlen : String.length
                     (substring (e - q) (String.length (String c sq')) (String c sq')) =
                   String.length (String c sq') - (e - q))
      by (apply substring_length_from; lia).
    revert H1 H2. destruct (Nat.eqb_spec p q) as [->|Hpq]; intros H1 H2;
      apply IH; rewrite Nat.eqb_refl, Hlen;
      change (String.length (String c sq')) with (S (String.length sq')) in *; lia.
Qed.

Lemma split_fuel (r : regex) (c : ascii) (t : string) (fuel : nat) :
  2 * String.length (String c t) + 2 <= fuel ->
  split ic r (String c t) = splitLoop ic r fuel 0 (String c t) 0 None (String c t).
Proof.
  intro H. unfold split. apply splitLoop_fuel; unfold splitMeasure; simpl in *; lia.
Qed.

End SplitFacts.

(** ** Worked examples *)

Section Examples.

Let users : list string := ["id"; "name"; "age"].

Example trim_both_ends : trim (String (ascii_of_nat 9) "  Show Me  ") = "Show Me".
Proof. reflexivity. Qed.

Example split_on_commas : split false commaRegex "name , age,id" = ["name"; "age"; "id"].
Proof. vm_compute. reflexivity. Qed.

Example split_keeps_empty_pieces : split false commaRegex "a,,b" = ["a"; ""; "b"].
Proof. vm_compute. reflexivity. Qed.

Example isNaN_samples :
  (isNaN "20", isNaN "1.5", isNaN "1e5", isNaN "0x1f", isNaN "bob", isNaN "1_0") =
  (false, false, false, false, true, true).
Proof. vm_compute. reflexivity. Qed.

Example order_match_captures :
  exec true orderRegex "please ORDER BY Age desc now" =
  Some (mkMatch 7 "ORDER BY Age desc" [(2, "desc"); (1, "Age")]).
Proof. vm_compute. reflexivity. Qed.

Example lazy_star_takes_the_first_word :
  exec true (aggregateRegex "average") "the Average price of it" =
  Some (mkMatch 4 "Average price" [(1, "price")]).
Proof. vm_compute. reflexivity. Qed.

Example limit_of_top_5 : extractLimit "top 5 users" = "5".
Proof. vm_compute. reflexivity. Qed.

Example limit_default : extractLimit "all users" = "100".
Proof. vm_compute. reflexivity. Qed.

Example show_me_all :
  generateSQLFromText "show me all users" "users" users =
  Normal (mkResult "SELECT * FROM users LIMIT 100" None).
Proof. vm_compute. reflexivity. Qed.

Example average_price :
  generateSQLFromText "average price" "users" ["id"; "price"; "qty"] =
  Normal (mkResult "SELECT AVG(price) as average_price FROM users" None).
Proof. vm_compute. reflexivity. Qed.

Example comparator_and_ordering :
  generateSQLFromText "users where age > 20 order by name desc" "users" users =
  Normal (mkResult "SELECT * FROM users WHERE age > 20 ORDER BY name DESC LIMIT 100" None).
Proof. vm_compute. reflexivity. Qed.

Example columns_and_conditions :
  generateSQLFromText "show name, age where age > 20" "users" users =
  Normal (mkResult "SELECT name, age FROM users WHERE age > 20 LIMIT 100" None).
Proof. vm_compute. reflexivity. Qed.

Example aggregate_without_columns :
  generateSQLFromText "max age" "users" [] =
  Normal (mkResult "SELECT MAX(undefined) as max_undefined FROM users" None).
Proof. vm_compute. reflexivity. Qed.

End Examples.

(** ** The column resolver *)

Section Resolver.

Lemma findTruthy_In (p : string -> bool) (cols : list string) (c : string) :
  findTruthy p cols = Some c -> In c cols /\ p c = true /\ c <> "".
Proof.
  unfold findTruthy. destruct (find p cols) as [c0|] eqn:E; [|discriminate].
  destruct (truthy c0) eqn:T; [|discriminate].
  intros [= <-]. apply find_some in E as [Hin Hp].
  repeat split; auto. now apply truthy_nonempty.
Qed.

Lemma findTruthy_find (p : string -> bool) (cols : list string) :
  Forall (fun c => c <> "") cols -> findTruthy p cols = find p cols.
Proof.
  intro Hne. unfold findTruthy. destruct (find p cols) as [c|] eqn:E; [|reflexivity].
  apply find_some in E as [Hin _].
  rewrite Forall_forall in Hne. apply Hne, truthy_nonempty in Hin.
  now rewrite Hin.
Qed.

Lemma findBestColumnMatch_In (word : string) (cols : list string) (c : string) :
  findBestColumnMatch word cols = Some c -> In c cols /\ c <> "".
Proof.
  unfold findBestColumnMatch.
  repeat
    lazymatch goal with
    | |- match findTruthy ?p ?l with _ => _ end = _ -> _ =>
        let E := fresh "E" in
        destruct (findTruthy p l) eqn:E;
        [intros [= <-]; apply findTruthy_In in E; tauto|]
    end.
  discriminate.
Qed.

End Resolver.

(** C3, as stated, fails on a column list that holds an empty name: the
    empty name is contained in every word, so the third tier of the
    specification selects it, while the code tests the column it found for
    truthiness and returns [null]. *)
Lemma findBestColumnMatch_empty_name_counterexample :
  columnResolverSpec "abc" [""; "b"] = Some "" /\
  findBestColumnMatch "abc" [""; "b"] = None.
Proof. split; reflexivity. Qed.

(** C3 (amended): for every word and every list of non-empty column names,
    the resolver returns the first column whose lower-cased name equals the
    lower-cased word; failing that, the first column whose lower-cased name
    contains the lower-cased word; failing that, the first column whose
    lower-cased name is contained in the lower-cased word; and [null] if no
    tier matches. *)
Theorem findBestColumnMatch_three_tiers (word : string) (columnNames : list string) :
  Forall (fun c => c <> "") columnNames ->
  findBestColumnMatch word columnNames = columnResolverSpec word columnNames.
Proof.
  intro Hne. unfold findBestColumnMatch, columnResolverSpec.
  rewrite !(findTruthy_find _ _ Hne).
  repeat
    lazymatch goal with
    | |- match find ?p ?l with _ => _ end = _ => destruct (find p l); [reflexivity|]
    end.
  reflexivity.
Qed.

Lemma findBestColumnMatch_three_tiers_witness :
  findBestColumnMatch "Nam" ["id"; "UserName"; "name"] = Some "UserName" /\
  findBestColumnMatch "Nam" ["id"; "UserName"; "name"] =
  columnResolverSpec "Nam" ["id"; "UserName"; "name"].
Proof.
  split; [reflexivity|].
  apply (findBestColumnMatch_three_tiers "Nam" ["id"; "UserName"; "name"]).
  repeat constructor; discriminate.
Defined.

(** C8: for every word and every list of column names, the resolver
    returns either [null] or an element of the supplied list. *)
Theorem findBestColumnMatch_in_list (word : string) (columnNames : list string) :
  findBestColumnMatch word columnNames = None \/
  exists c, findBestColumnMatch word columnNames = Some c /\ In c columnNames.
Proof.
  destruct (findBestColumnMatch word columnNames) as [c|] eqn:E; [right | now left].
  exists c. split; [reflexivity|]. now apply findBestColumnMatch_In in E.
Qed.

(** ** The aggregate-column extractor *)

Section Aggregate.

Lemma aggregateRegex_defines (keyword : string) :
  defines 1 (aggregateRegex keyword) = true.
Proof.
  unfold aggregateRegex. cbn [seqs defines].
  destruct (defines 1 (lit keyword) && _); reflexivity.
Qed.

(** The loop never throws: the captured word is there whenever the
    pattern matches.  It returns the column of the first keyword that
    resolves. *)
Lemma columnAfterKeyword_spec (text : string) (cols keywords : list string) :
  (columnAfterKeyword text cols keywords = Normal None /\
   noneResolved text cols keywords) \/
  (exists c, columnAfterKeyword text cols keywords = Normal (Some c) /\
             firstResolved text cols keywords c).
Proof.
  induction keywords as [|kw kws IH]; simpl.
  - left. split; [reflexivity | constructor].
  - assert (Hstep :
             (resolvedAfter text cols kw = None /\
              columnAfterKeyword text cols (kw :: kws) = columnAfterKeyword text cols kws) \/
             (exists c, resolvedAfter text cols kw = Some c /\
                        columnAfterKeyword text cols (kw :: kws) = Normal (Some c))).
    { unfold resolvedAfter. cbn [columnAfterKeyword].
      destruct (exec true (aggregateRegex kw) text) as [m|] eqn:E; [|now left].
      destruct (exec_defines true _ 1 _ _ (aggregateRegex_defines kw) E) as [v Hv].
      rewrite Hv. unfold columnOfCapture. simpl.
      destruct (findBestColumnMatch v cols) as [c|]; [right; eauto | now left]. }
    simpl in Hstep.
    destruct Hstep as [[Hn ->]|[c [Hc ->]]].
    + destruct IH as [[-> Hall]|[c [-> (pre & k & post & -> & Hpre & Hk)]]].
      * left. split; [reflexivity | now constructor].
      * right. exists c. split; [reflexivity|].
        exists (kw :: pre), k, post. repeat split; auto.
    + right. exists c. split; [reflexivity|].
      exists [], kw, kws. repeat split; auto.
Qed.

Lemma firstResolved_In (text : string) (cols keywords : list string) (c : string) :
  firstResolved text cols keywords c -> In c cols.
Proof.
  intros (pre & k & post & _ & _ & Hk). unfold resolvedAfter in Hk.
  destruct (exec true (aggregateRegex k) text); [|discriminate].
  destruct (group m 1); [|discriminate].
  now apply findBestColumnMatch_In in Hk.
Qed.

Lemma isNumericColumn_truthy (c : string) : isNumericColumn c = true -> truthy c = true.
Proof. destruct c; [discriminate | reflexivity]. Qed.

End Aggregate.

(** C4, as stated, fails on an empty column list: no keyword resolves, no
    column carries a numeric hint and [columnNames[0]] is [undefined], so
    the extractor names no column. *)
Lemma extractColumnForAggregate_no_columns_counterexample :
  extractColumnForAggregate "average price" [] ["avg"; "average"; "mean"] = Normal None.
Proof. reflexivity. Qed.

(** C4 (amended): for every phrase, every non-empty column list and every
    set of keywords made of word characters, the aggregate-column extractor
    returns a column of the list and never [null]: the column resolved from
    the word following the first aggregate keyword, in order, for which one
    resolves; else the first column whose lower-cased name contains one of
    [id], [age], [salary], [price], [amount]; else the first column of the
    list. *)
Theorem extractColumnForAggregate_names_a_column
        (text : string) (columnNames keywords : list string) :
  columnNames <> [] ->
  Forall (fun k => plainKeyword k = true) keywords ->
  exists c,
    extractColumnForAggregate text columnNames keywords = Normal (Some c) /\
    In c columnNames /\
    (firstResolved text columnNames keywords c \/
     (noneResolved text columnNames keywords /\
      find isNumericColumn columnNames = Some c) \/
     (noneResolved text columnNames keywords /\
      find isNumericColumn columnNames = None /\
      hd_error columnNames = Some c)).
Proof.
  intros Hne _. unfold extractColumnForAggregate.
  destruct (columnAfterKeyword_spec text columnNames keywords)
    as [[-> Hnone]|[c [-> Hfirst]]]; simpl.
  - rewrite hd_error_filter.
    destruct (find isNumericColumn columnNames) as [c|] eqn:E.
    + apply find_some in E as E'. destruct E' as [Hin Hnum].
      rewrite (isNumericColumn_truthy _ Hnum).
      exists c. repeat split; auto.
    + destruct columnNames as [|c0 cols]; [congruence|]. simpl.
      exists c0. repeat split; auto.
  - exists c. repeat split; auto. eapply firstResolved_In; eauto.
Qed.

Lemma extractColumnForAggregate_names_a_column_witness :
  exists c,
    extractColumnForAggregate "average price" ["id"; "price"; "qty"]
                              ["avg"; "average"; "mean"] = Normal (Some c) /\
    In c ["id"; "price"; "qty"] /\
    (firstResolved "average price" ["id"; "price"; "qty"] ["avg"; "average"; "mean"] c \/
     (noneResolved "average price" ["id"; "price"; "qty"] ["avg"; "average"; "mean"] /\
      find isNumericColumn ["id"; "price"; "qty"] = Some c) \/
     (noneResolved "average price" ["id"; "price"; "qty"] ["avg"; "average"; "mean"] /\
      find isNumericColumn ["id"; "price"; "qty"] = None /\
      hd_error ["id"; "price"; "qty"] = Some c)).
Proof.
  apply (extractColumnForAggregate_names_a_column
           "average price" ["id"; "price"; "qty"] ["avg"; "average"; "mean"]).
  - discriminate.
  - repeat constructor.
Defined.

(** ** The WHERE-condition extractor *)

Section Conditions.

(** A handler that is handed a match of its own pattern does not throw:
    the captures it reads are set by every match. *)
Lemma handlers_total (cols : list string) (p : conditionPattern) :
  In p (conditionPatterns cols) ->
  forall text m, exec true (regex_of p) text = Some m ->
                 exists o, handler p m = Normal o.
Proof.
  intros Hin text m E. simpl in Hin.
  repeat (destruct Hin as [<-|Hin];
          [ cbn [regex_of handler] in *;
            match type of E with
            | exec _ ?r _ = _ =>
                destruct (exec_defines true r 1 _ _ eq_refl E) as [v Hv]
            end;
            unfold columnOfCapture; simpl in Hv; try rewrite Hv; cbn [deref bind];
            eauto | ]).
  destruct Hin.
Qed.

Lemma collectConditions_total (text : string) (ps : list conditionPattern) :
  (forall p, In p ps ->
             forall m, exec true (regex_of p) text = Some m ->
                       exists o, handler p m = Normal o) ->
  forall acc, exists extra,
    collectConditions ps text acc = Normal (acc ++ extra)%list /\
    Forall (fun c => c <> "") extra.
Proof.
  induction ps as [|p ps IH]; intros Hp acc; simpl.
  - exists []. rewrite app_nil_r. split; [reflexivity | constructor].
  - assert (Hps : forall q, In q ps ->
                            forall m, exec true (regex_of q) text = Some m ->
                                      exists o, handler q m = Normal o).
    { intros q Hq. apply Hp. now right. }
    destruct (exec true (regex_of p) text) as [m|] eqn:E; [|now apply IH].
    destruct (Hp p (or_introl eq_refl) m E) as [o ->]. simpl.
    destruct o as [c|]; [|now apply IH].
    destruct (truthy c) eqn:T; [|now apply IH].
    destruct (IH Hps (acc ++ [c])%list) as [extra [-> Hextra]].
    exists (c :: extra). rewrite <- app_assoc. split; [reflexivity|].
    constructor; [now apply truthy_nonempty | exact Hextra].
Qed.

Lemma join_nonempty (sep c : string) (cs : list string) :
  c <> "" -> join sep (c :: cs) <> "".
Proof. destruct c; [congruence|]. destruct cs; simpl; discriminate. Qed.

(** The extractor returns normally: [null], or the conjunction of at
    least one non-empty condition. *)
Lemma extractWhereConditions_total (text : string) (cols : list string) :
  extractWhereConditions text cols = Normal None \/
  exists c cs,
    extractWhereConditions text cols = Normal (Some (join " AND " (c :: cs))) /\
    Forall (fun x => x <> "") (c :: cs).
Proof.
  unfold extractWhereConditions.
  destruct (collectConditions_total text (conditionPatterns cols)
              (fun p Hp => handlers_total cols p Hp text) [])
    as [extra [-> Hextra]]. simpl.
  destruct extra as [|c cs]; [now left|].
  right. exists c, cs. split; [reflexivity | exact Hextra].
Qed.

End Conditions.

(** C9: for every phrase and every list of column names, the
    WHERE-condition extractor does not throw: it returns [null] or a
    non-empty string, the conditions it found (each non-empty, at least
    one) joined with [" AND "].  Hence the fallback of the translator
    never takes its catch branch: it returns normally and without the
    warning. *)
Theorem extractWhereConditions_never_throws (text : string) (columnNames : list string) :
  (extractWhereConditions text columnNames = Normal None \/
   exists c cs,
     extractWhereConditions text columnNames = Normal (Some (join " AND " (c :: cs))) /\
     Forall (fun x => x <> "") (c :: cs) /\
     join " AND " (c :: cs) <> "") /\
  (forall table, exists q, fallback text table columnNames = Normal (mkResult q None)).
Proof.
  split.
  - destruct (extractWhereConditions_total text columnNames) as [H|(c & cs & H & Hne)].
    + now left.
    + right. exists c, cs. repeat split; auto.
      apply join_nonempty. now inversion Hne.
  - intro table. unfold fallback.
    destruct (extractWhereConditions_total text columnNames) as [->|(c & cs & -> & _)];
      simpl; eauto.
Qed.

(** ** The rule loop *)

Section RuleLoop.

Variables (lowerText text : string).

Lemma tryPatterns_total (ps : list pattern) :
  exists o, tryPatterns ps lowerText text = Normal o.
Proof.
  induction ps as [|p ps IH]; simpl; [eauto|].
  destruct (test true (pattern_regex p) lowerText); [|exact IH].
  destruct (sqlOf p text); simpl; [eauto | exact IH].
Qed.

(** The loop returns the result of the first usable rule. *)
Lemma tryPatterns_firstUsable (ps : list pattern) :
  tryPatterns ps lowerText text = Normal (firstUsable ps lowerText text).
Proof.
  unfold firstUsable.
  induction ps as [|p ps IH]; simpl; [reflexivity|].
  unfold usable at 1.
  destruct (test true (pattern_regex p) lowerText); simpl; [|exact IH].
  destruct (sqlOf p text) eqn:E; simpl; [now rewrite E | exact IH].
Qed.

Lemma passedOver_not_usable (p : pattern) :
  passedOver lowerText text p -> usable lowerText text p = false.
Proof.
  unfold usable. intros [->|[e ->]]; [reflexivity | apply andb_false_r].
Qed.

Lemma find_app_skip {A : Type} (f : A -> bool) (pre l : list A) :
  Forall (fun a => f a = false) pre -> find f (pre ++ l) = find f l.
Proof.
  induction 1 as [|a pre Ha _ IH]; simpl; [reflexivity|]. now rewrite Ha.
Qed.

Lemma tryPatterns_skip (pre post : list pattern) :
  Forall (passedOver lowerText text) pre ->
  tryPatterns (pre ++ post) lowerText text = tryPatterns post lowerText text.
Proof.
  intro H. rewrite !tryPatterns_firstUsable. f_equal. unfold firstUsable.
  rewrite find_app_skip; [reflexivity|].
  eapply Forall_impl; [|exact H]. apply passedOver_not_usable.
Qed.

Lemma tryPatterns_uses (pre post : list pattern) (p : pattern) (q : string) :
  Forall (passedOver lowerText text) pre ->
  test true (pattern_regex p) lowerText = true ->
  sqlOf p text = Normal q ->
  tryPatterns (pre ++ p :: post) lowerText text =
  Normal (Some (mkResult (addLimit q) None)).
Proof.
  intros Hpre Ht Hq. rewrite (tryPatterns_skip pre (p :: post) Hpre). simpl.
  now rewrite Ht, Hq.
Qed.

Lemma tryPatterns_no_trigger (ps : list pattern) :
  Forall (fun p => test true (pattern_regex p) lowerText = false) ps ->
  tryPatterns ps lowerText text = Normal None.
Proof.
  induction 1 as [|p ps Hp _ IH]; simpl; [reflexivity|]. now rewrite Hp.
Qed.

End RuleLoop.

(** ** The statements the translator builds *)

Section Statements.

Lemma append_nil_r (t : string) : t ++ "" = t.
Proof. induction t as [|c t IH]; simpl; [reflexivity | now rewrite IH]. Qed.

Lemma selectFrom_make (table columns tail q : string) :
  q = "SELECT " ++ columns ++ " FROM " ++ table ++ tail -> selectFrom table q.
Proof. intros ->. now exists columns, tail. Qed.

Lemma selectFrom_append (table q tail : string) :
  selectFrom table q -> selectFrom table (q ++ tail).
Proof.
  intros (columns & tail0 & ->). exists columns, (tail0 ++ tail).
  now rewrite !append_assoc.
Qed.

Lemma selectFrom_addLimit (table q : string) :
  selectFrom table q -> selectFrom table (addLimit q).
Proof.
  intro H. unfold addLimit. destruct (negb (limitExempt q)); [|exact H].
  now apply selectFrom_append.
Qed.

Lemma selectFrom_shape (table q : string) :
  selectFrom table q ->
  startsWith q "SELECT " = true /\
  includes q (" FROM " ++ table) = true /\
  Forall (fun keyword => startsWith q keyword = false)
         ["INSERT"; "UPDATE"; "DELETE"; "CREATE"; "DROP"; "ALTER"].
Proof.
  intros (columns & tail & ->). split; [apply startsWith_app | split].
  - replace ("SELECT " ++ columns ++ " FROM " ++ table ++ tail)
      with (("SELECT " ++ columns) ++ (" FROM " ++ table) ++ tail)
      by now rewrite !append_assoc.
    apply includes_app.
  - repeat constructor.
Qed.

Lemma aggregateBuilder_selectFrom (table : string) (cols keywords : list string)
      (fn alias text q : string) :
  aggregateBuilder table cols keywords fn alias text = Normal q -> selectFrom table q.
Proof.
  unfold aggregateBuilder.
  destruct (extractColumnForAggregate text cols keywords) as [column|e];
    simpl; [|discriminate].
  intros [= <-].
  apply (selectFrom_make table
           (fn ++ "(" ++ orUndefined column ++ ") as " ++ alias ++ "_" ++ orUndefined column)
           "").
  now rewrite !append_assoc, append_nil_r.
Qed.

(** Every rule builds a SELECT over the table. *)
Lemma patterns_selectFrom (table : string) (cols : list string) (text : string)
      (p : pattern) (q : string) :
  In p (patterns table cols) -> sqlOf p text = Normal q -> selectFrom table q.
Proof.
  intros Hin. unfold patterns in Hin. cbn [In] in Hin.
  repeat (destruct Hin as [<-|Hin];
          [ try (now apply aggregateBuilder_selectFrom) | ]);
    try destruct Hin; unfold sqlOf; cbn [sql].
  - intros [= <-].
    apply (selectFrom_make table "COUNT(*) as count" ""). now rewrite append_nil_r.
  - intros [= <-].
    apply (selectFrom_make table "COUNT(*) as count" ""). now rewrite append_nil_r.
  - intros [= <-].
    apply (selectFrom_make table "*" ""). now rewrite append_nil_r.
  - destruct (extractWhereConditions text cols) as [c|e]; simpl; [|discriminate].
    intros [= <-]. now apply (selectFrom_make table "*" (" WHERE " ++ orNull c)).
  - destruct (exec true showWhereInner text) as [m|]; simpl; [|discriminate].
    destruct (extractWhereConditions text cols) as [c|e]; simpl; [|discriminate].
    intros [= <-].
    now apply (selectFrom_make table (extractColumns (group m 1) cols)
                 (" WHERE " ++ orNull c)).
  - destruct (exec true onlyInner text) as [m|]; simpl; [|discriminate].
    intros [= <-].
    apply (selectFrom_make table (extractColumns (group m 1) cols) "").
    now rewrite append_nil_r.
  - destruct (extractOrderBy text cols) as [o|e]; simpl; [|discriminate].
    destruct (extractWhereConditions text cols) as [c|e]; simpl; [|discriminate].
    intros [= <-].
    now apply (selectFrom_make table "*" (" " ++ whereClauseOf c ++ " " ++ o)).
  - destruct (extractWhereConditions text cols) as [c|e]; simpl; [|discriminate].
    intros [= <-].
    now apply (selectFrom_make table "*"
                 (" " ++ whereClauseOf c ++ " LIMIT " ++ extractLimit text)).
Qed.

Lemma firstUsable_selectFrom (table : string) (cols : list string)
      (lowerText text : string) (r : result) :
  firstUsable (patterns table cols) lowerText text = Some r ->
  selectFrom table (sqlQuery r) /\ error r = None.
Proof.
  unfold firstUsable.
  destruct (find _ (patterns table cols)) as [p|] eqn:E; [|discriminate].
  apply find_some in E as [Hin _].
  destruct (sqlOf p text) as [q|e] eqn:Hq; [|discriminate].
  intros [= <-]. simpl. split; [|reflexivity].
  apply selectFrom_addLimit. eapply patterns_selectFrom; eauto.
Qed.

Lemma fallback_selectFrom (text table : string) (cols : list string) :
  exists r, fallback text table cols = Normal r /\ selectFrom table (sqlQuery r).
Proof.
  unfold fallback.
  destruct (extractWhereConditions text cols) as [[c|]|e]; simpl.
  - destruct (truthy c); eexists; (split; [reflexivity|]); simpl.
    + now apply (selectFrom_make table "*" (" WHERE " ++ c ++ " LIMIT 100")).
    + now apply (selectFrom_make table "*" " LIMIT 100").
  - eexists; (split; [reflexivity|]); simpl.
    now apply (selectFrom_make table "*" " LIMIT 100").
  - eexists; (split; [reflexivity|]); simpl.
    now apply (selectFrom_make table "*" " LIMIT 100").
Qed.

End Statements.

(** ** The translator *)

(** C7: the phrase "users where age greater than 20" over the table
    [users] with columns [id], [name], [age] translates to exactly
    [SELECT * FROM users WHERE age > 20 LIMIT 100]. *)
Theorem translate_age_greater_than_20 :
  generateSQLFromText "users where age greater than 20" "users" ["id"; "name"; "age"] =
  Normal (mkResult "SELECT * FROM users WHERE age > 20 LIMIT 100" None).
Proof. vm_compute. reflexivity. Qed.

(** C5: for every phrase, table name and column list the translator
    returns normally, with a result that holds an SQL string; no exception
    leaves the call. *)
Theorem generateSQLFromText_total (text table : string) (columnNames : list string) :
  exists r, generateSQLFromText text table columnNames = Normal r.
Proof.
  unfold generateSQLFromText.
  destruct (tryPatterns_total (trim (toLowerCase text)) text (patterns table columnNames))
    as [[r|] ->]; simpl.
  - eauto.
  - unfold fallback. destruct (extractWhereConditions text columnNames); simpl; eauto.
Qed.

(** C1, as stated, fails: a phrase that triggers no rule and yields no
    condition gets the default statement, but without any warning. *)
Lemma fallback_warning_counterexample :
  Forall (fun p => test true (pattern_regex p) (trim (toLowerCase "hello")) = false)
         (patterns "users" ["id"; "name"; "age"]) /\
  extractWhereConditions "hello" ["id"; "name"; "age"] = Normal None /\
  generateSQLFromText "hello" "users" ["id"; "name"; "age"] =
  Normal (mkResult "SELECT * FROM users LIMIT 100" None).
Proof.
  split; [|split]; [| vm_compute; reflexivity | vm_compute; reflexivity].
  repeat (apply Forall_cons; [vm_compute; reflexivity|]). apply Forall_nil.
Qed.

(** C1 (amended): for every phrase that matches none of the rule trigger
    patterns and from which the WHERE-condition extractor yields no
    condition, the translation returns exactly the SQL string
    [SELECT * FROM <table> LIMIT 100], with no warning. *)
Theorem fallback_default_statement (text table : string) (columnNames : list string) :
  Forall (fun p => test true (pattern_regex p) (trim (toLowerCase text)) = false)
         (patterns table columnNames) ->
  extractWhereConditions text columnNames = Normal None ->
  generateSQLFromText text table columnNames =
  Normal (mkResult ("SELECT * FROM " ++ table ++ " LIMIT 100") None).
Proof.
  intros Hno Hnone. unfold generateSQLFromText.
  rewrite (tryPatterns_no_trigger _ _ _ Hno). simpl.
  unfold fallback. now rewrite Hnone.
Qed.

Lemma fallback_default_statement_witness :
  generateSQLFromText "hello" "users" ["id"; "name"; "age"] =
  Normal (mkResult ("SELECT * FROM " ++ "users" ++ " LIMIT 100") None).
Proof.
  apply (fallback_default_statement "hello" "users" ["id"; "name"; "age"]).
  - repeat (apply Forall_cons; [vm_compute; reflexivity|]). apply Forall_nil.
  - vm_compute. reflexivity.
Defined.

(** C2: when the rule used for a phrase (the first one whose trigger
    matches and whose builder succeeds) produces the text [q], the
    returned SQL is [q] followed by [" LIMIT 100"] if [q], lower-cased,
    contains none of [limit], [count(], [avg(], [sum(], [max(], [min(],
    and [q] unchanged if it contains one of them. *)
Theorem safety_limit (text table : string) (columnNames : list string)
        (pre post : list pattern) (p : pattern) (q : string) :
  patterns table columnNames = (pre ++ p :: post)%list ->
  Forall (passedOver (trim (toLowerCase text)) text) pre ->
  test true (pattern_regex p) (trim (toLowerCase text)) = true ->
  sqlOf p text = Normal q ->
  exists r,
    generateSQLFromText text table columnNames = Normal r /\
    (includes (toLowerCase q) "limit" = false /\
     includes (toLowerCase q) "count(" = false /\
     includes (toLowerCase q) "avg(" = false /\
     includes (toLowerCase q) "sum(" = false /\
     includes (toLowerCase q) "max(" = false /\
     includes (toLowerCase q) "min(" = false ->
     sqlQuery r = q ++ " LIMIT 100") /\
    (includes (toLowerCase q) "limit" = true \/
     includes (toLowerCase q) "count(" = true \/
     includes (toLowerCase q) "avg(" = true \/
     includes (toLowerCase q) "sum(" = true \/
     includes (toLowerCase q) "max(" = true \/
     includes (toLowerCase q) "min(" = true ->
     sqlQuery r = q).
Proof.
  intros Hps Hpre Ht Hq. unfold generateSQLFromText.
  rewrite Hps, (tryPatterns_uses _ _ pre post p q Hpre Ht Hq). simpl.
  eexists. split; [reflexivity|]. simpl. unfold addLimit, limitExempt. split.
  - intros (-> & -> & -> & -> & -> & ->). reflexivity.
  - intros [-> | [-> | [-> | [-> | [-> | ->]]]]]; rewrite ?orb_true_r; reflexivity.
Qed.

Lemma safety_limit_witness :
  exists r,
    generateSQLFromText "Show me ALL users" "users" ["id"; "name"; "age"] = Normal r /\
    sqlQuery r = "SELECT * FROM users" ++ " LIMIT 100".
Proof.
  destruct (safety_limit "Show me ALL users" "users" ["id"; "name"; "age"]
              (firstn 2 (patterns "users" ["id"; "name"; "age"]))
              (skipn 3 (patterns "users" ["id"; "name"; "age"]))
              (mkPattern selectAllRegex (Static "SELECT * FROM users") "Select all records")
              "SELECT * FROM users")
    as [r [Hr [Hadd _]]].
  - reflexivity.
  - repeat (apply Forall_cons; [left; vm_compute; reflexivity|]). apply Forall_nil.
  - vm_compute. reflexivity.
  - reflexivity.
  - exists r. split; [exact Hr|]. apply Hadd. repeat split.
Defined.

(** C6: in the rule loop, when the first rule whose trigger matches the
    lower-cased phrase has a builder that throws, the loop goes on with
    the rules after it and the call does not fail; the result is that of
    the first rule whose trigger matches and whose builder succeeds, if
    there is one. *)
Theorem tryPatterns_skips_throwing_builder
        (ps pre post : list pattern) (p : pattern) (lowerText text : string) (e : exn) :
  ps = (pre ++ p :: post)%list ->
  Forall (fun r => test true (pattern_regex r) lowerText = false) pre ->
  test true (pattern_regex p) lowerText = true ->
  sqlOf p text = Throw e ->
  tryPatterns ps lowerText text = tryPatterns post lowerText text /\
  tryPatterns ps lowerText text = Normal (firstUsable post lowerText text).
Proof.
  intros -> Hpre Ht He.
  assert (H : tryPatterns (pre ++ p :: post) lowerText text =
              tryPatterns post lowerText text).
  { change (p :: post) with ([p] ++ post)%list. rewrite app_assoc.
    apply tryPatterns_skip. apply Forall_app. split.
    - eapply Forall_impl; [|exact Hpre]. intros r Hr. now left.
    - apply Forall_cons; [right; eauto | apply Forall_nil]. }
  split; [exact H|]. rewrite H. apply tryPatterns_firstUsable.
Qed.

Lemma tryPatterns_skips_throwing_builder_witness :
  tryPatterns (patterns "users" ["id"; "name"; "age"]) "show total where x" "hello" =
  tryPatterns (skipn 5 (patterns "users" ["id"; "name"; "age"])) "show total where x" "hello" /\
  tryPatterns (patterns "users" ["id"; "name"; "age"]) "show total where x" "hello" =
  Normal (Some (mkResult "SELECT SUM(id) as total_id FROM users" None)).
Proof.
  destruct (tryPatterns_skips_throwing_builder
              (patterns "users" ["id"; "name"; "age"])
              (firstn 4 (patterns "users" ["id"; "name"; "age"]))
              (skipn 5 (patterns "users" ["id"; "name"; "age"]))
              (nth 4 (patterns "users" ["id"; "name"; "age"])
                   (mkPattern Empty (Static "") ""))
              "show total where x" "hello" TypeError) as [H1 H2].
  - reflexivity.
  - repeat (apply Forall_cons; [vm_compute; reflexivity|]). apply Forall_nil.
  - vm_compute. reflexivity.
  - vm_compute. reflexivity.
  - split; [exact H1|]. rewrite H2. vm_compute. reflexivity.
Defined.

(** C10: for every phrase, table name and column list, the SQL string the
    translator returns begins with [SELECT ] and contains [ FROM <table>];
    it begins with none of the keywords of a data-changing or
    schema-changing statement. *)
Theorem generateSQLFromText_select_only (text table : string) (columnNames : list string) :
  exists r,
    generateSQLFromText text table columnNames = Normal r /\
    startsWith (sqlQuery r) "SELECT " = true /\
    includes (sqlQuery r) (" FROM " ++ table) = true /\
    Forall (fun keyword => startsWith (sqlQuery r) keyword = false)
           ["INSERT"; "UPDATE"; "DELETE"; "CREATE"; "DROP"; "ALTER"].
Proof.
  unfold generateSQLFromText. rewrite tryPatterns_firstUsable. simpl.
  destruct (firstUsable (patterns table columnNames) (trim (toLowerCase text)) text)
    as [r|] eqn:E.
  - exists r. split; [reflexivity|].
    apply firstUsable_selectFrom in E as [Hsel _]. now apply selectFrom_shape.
  - destruct (fallback_selectFrom text table columnNames) as [r [-> Hsel]].
    exists r. split; [reflexivity|]. now apply selectFrom_shape.
Qed.

(* ===================================================================== *)
(** * Further properties *)
(* ===================================================================== *)

(** ** What a match consumes *)

Section Consumption.

Variable ic : bool.

Lemma string_length_app (u t : string) :
  String.length (u ++ t) = String.length u + String.length t.
Proof. induction u as [|c u IH]; simpl; [reflexivity | now rewrite IH]. Qed.

Lemma substring_prefix (u t : string) : substring 0 (String.length u) (u ++ t) = u.
Proof.
  induction u as [|c u IH]; simpl.
  - destruct t; reflexivity.
  - now rewrite IH.
Qed.

Lemma advances_refl (x : state) : advances x x "".
Proof. split; simpl; [reflexivity | lia]. Qed.

Lemma advances_trans (x y z : state) (u v : string) :
  advances x y u -> advances y z v -> advances x z (u ++ v).
Proof.
  intros [Hr1 He1] [Hr2 He2]. split.
  - now rewrite Hr1, Hr2, append_assoc.
  - rewrite string_length_app. lia.
Qed.

Lemma consumed_advances (x y : state) (u : string) :
  advances x y u -> consumed x y = u.
Proof.
  intros [Hr He]. unfold consumed. rewrite Hr, He.
  replace (endIndex x + String.length u - endIndex x) with (String.length u) by lia.
  apply substring_prefix.
Qed.

Lemma consume_advances (p : ascii -> bool) (x y : state) :
  In y (consume p x) ->
  exists ch, p ch = true /\ advances x y (String ch "") /\ captures y = captures x.
Proof.
  unfold consume, advances. destruct (rest x) as [|ch t] eqn:E; [intros []|].
  destruct (p ch) eqn:Hp; [|intros []].
  intros [<-|[]]. exists ch. simpl. repeat split; auto. lia.
Qed.

Lemma repeatMatcher_advances (m : state -> list state) (ks : list nat) :
  (forall x y, In y (m x) -> exists u, advances x y u) ->
  forall greedy fuel min max x y,
    In y (repeatMatcher m ks greedy fuel min max x) -> exists u, advances x y u.
Proof.
  intros Hm greedy fuel.
  induction fuel as [|fuel IH]; intros min max x y; simpl.
  - destruct (maxIsZero max); intros [<-|[]]; exists ""; apply advances_refl.
  - destruct (maxIsZero max); [intros [<-|[]]; exists ""; apply advances_refl|].
    assert (Hit : forall z,
               In z (flat_map
                       (fun y0 =>
                          if Nat.eqb min 0 && Nat.eqb (endIndex y0) (endIndex x) then []
                          else repeatMatcher m ks greedy fuel (Nat.pred min) (decMax max) y0)
                       (m (clearCaptures ks x))) ->
               exists u, advances x z u).
    { intros z Hz. apply in_flat_map in Hz as [y0 [Hy0 Hz]].
      destruct (Nat.eqb min 0 && Nat.eqb (endIndex y0) (endIndex x)); [destruct Hz|].
      apply IH in Hz as [v Hv]. apply Hm in Hy0 as [u Hu].
      exists (u ++ v). eapply advances_trans; [|exact Hv]. exact Hu. }
    destruct (negb (Nat.eqb min 0)); [apply Hit|].
    destruct greedy.
    + intro H. apply in_app_or in H as [H|[<-|[]]];
        [now apply Hit | exists ""; apply advances_refl].
    + intros [<-|H]; [exists ""; apply advances_refl | now apply Hit].
Qed.

(** A matcher moves over a prefix of the remaining input. *)
Lemma run_advances (r : regex) (x y : state) :
  In y (run ic r x) -> exists u, advances x y u.
Proof.
  revert x y.
  induction r as [ |c| |inv atoms| |r1 IH1 r2 IH2|r1 IH1 r2 IH2|j r1 IH1|mn mx g r1 IH1];
    simpl; intros x y Hy.
  - destruct Hy as [<-|[]]. exists "". apply advances_refl.
  - apply consume_advances in Hy as (ch & _ & H & _). eauto.
  - apply consume_advances in Hy as (ch & _ & H & _). eauto.
  - apply consume_advances in Hy as (ch & _ & H & _). eauto.
  - destruct (xorb _ _); [destruct Hy as [<-|[]]; exists ""; apply advances_refl | destruct Hy].
  - apply in_flat_map in Hy as [z [Hz Hy]].
    apply IH1 in Hz as [u Hu]. apply IH2 in Hy as [v Hv].
    exists (u ++ v). eapply advances_trans; eauto.
  - apply in_app_or in Hy as [Hy|Hy]; [now apply IH1 | now apply IH2].
  - apply in_map_iff in Hy as [z [<- Hz]]. apply IH1 in Hz as [u Hu].
    exists u. exact Hu.
  - eapply repeatMatcher_advances; eauto.
Qed.

(** A repeated character class consumes characters of the class only. *)
Lemma repeatMatcher_class (p : ascii -> bool) (m : state -> list state) (ks : list nat) :
  (forall x y, In y (m x) -> exists ch, p ch = true /\ advances x y (String ch "")) ->
  forall greedy fuel min max x y,
    In y (repeatMatcher m ks greedy fuel min max x) ->
    exists u, advances x y u /\ allChars p u = true.
Proof.
  intros Hm greedy fuel.
  induction fuel as [|fuel IH]; intros min max x y; simpl.
  - destruct (maxIsZero max); intros [<-|[]]; exists ""; split;
      try apply advances_refl; reflexivity.
  - destruct (maxIsZero max);
      [intros [<-|[]]; exists ""; split; try apply advances_refl; reflexivity|].
    assert (Hit : forall z,
               In z (flat_map
                       (fun y0 =>
                          if Nat.eqb min 0 && Nat.eqb (endIndex y0) (endIndex x) then []
                          else repeatMatcher m ks greedy fuel (Nat.pred min) (decMax max) y0)
                       (m (clearCaptures ks x))) ->
               exists u, advances x z u /\ u <> "" /\ allChars p u = true).
    { intros z Hz. apply in_flat_map in Hz as [y0 [Hy0 Hz]].
      destruct (Nat.eqb min 0 && Nat.eqb (endIndex y0) (endIndex x)); [destruct Hz|].
      apply IH in Hz as (v & Hv & Hpv). apply Hm in Hy0 as (ch & Hp & Hu).
      exists (String ch "" ++ v). split; [|split].
      - eapply advances_trans; [|exact Hv]. exact Hu.
      - discriminate.
      - simpl. now rewrite Hp, Hpv. }
    assert (Hit' : forall z,
               In z (flat_map
                       (fun y0 =>
                          if Nat.eqb min 0 && Nat.eqb (endIndex y0) (endIndex x) then []
                          else repeatMatcher m ks greedy fuel (Nat.pred min) (decMax max) y0)
                       (m (clearCaptures ks x))) ->
               exists u, advances x z u /\ allChars p u = true).
    { intros z Hz. destruct (Hit z Hz) as (u & H1 & _ & H2). eauto. }
    destruct (negb (Nat.eqb min 0)); [apply Hit'|].
    destruct greedy.
    + intro H. apply in_app_or in H as [H|[<-|[]]];
        [now apply Hit' | exists ""; split; [apply advances_refl | reflexivity]].
    + intros [<-|H]; [exists ""; split; [apply advances_refl | reflexivity] | now apply Hit'].
Qed.

(** [[...]+] consumes a non-empty string of characters of the class. *)
Lemma plus_class_consumed (invert : bool) (atoms : list classAtom) (x y : state) :
  In y (run ic (plus (Class invert atoms)) x) ->
  someChars (classPredicate ic invert atoms) (consumed x y).
Proof.
  unfold plus. cbn [run groupsOf]. rewrite Nat.add_1_l. cbn [repeatMatcher maxIsZero].
  cbn [Nat.eqb negb andb Nat.pred decMax]. intro Hy.
  apply in_flat_map in Hy as [y0 [Hy0 Hy]].
  apply consume_advances in Hy0 as (ch & Hp & Hu & _).
  eapply (repeatMatcher_class (classPredicate ic invert atoms)) in Hy as (v & Hv & Hpv).
  - assert (Hadv : advances x y (String ch "" ++ v)).
    { eapply advances_trans; [|exact Hv].
      destruct Hu as [Hr He]. split; [exact Hr | exact He]. }
    rewrite (consumed_advances _ _ _ Hadv). split; [discriminate|].
    simpl. unfold classPredicate at 1. now rewrite Hp, Hpv.
  - intros x' y' Hy'. cbn [run] in Hy'.
    apply consume_advances in Hy' as (ch' & Hp' & Hu' & _). eauto.
Qed.

End Consumption.

(** ** What a match captures *)

Section Captures.

Variable ic : bool.

Lemma lookup_cleared (k : nat) (ks : list nat) (caps : list (nat * string)) :
  memNat k ks = true ->
  lookup k (filter (fun kv => negb (memNat (fst kv) ks)) caps) = None.
Proof.
  intro Hk. induction caps as [|[j v] caps IH]; simpl; [reflexivity|].
  destruct (memNat j ks) eqn:Hj; simpl; [exact IH|].
  destruct (Nat.eqb_spec j k) as [->|_]; [congruence | exact IH].
Qed.

Lemma capturesIn_clear (k : nat) (P : string -> Prop) (ks : list nat) (x : state) :
  capturesIn k P (captures x) -> capturesIn k P (captures (clearCaptures ks x)).
Proof.
  unfold capturesIn. simpl. intros H v.
  destruct (memNat k ks) eqn:Hk.
  - rewrite (lookup_cleared _ _ _ Hk). discriminate.
  - rewrite (lookup_clear _ _ _ Hk). apply H.
Qed.

Lemma repeatMatcher_capturesIn (m : state -> list state) (ks : list nat)
      (k : nat) (P : string -> Prop) :
  (forall x y, In y (m x) -> capturesIn k P (captures x) -> capturesIn k P (captures y)) ->
  forall greedy fuel min max x y,
    In y (repeatMatcher m ks greedy fuel min max x) ->
    capturesIn k P (captures x) -> capturesIn k P (captures y).
Proof.
  intros Hm greedy fuel.
  induction fuel as [|fuel IH]; intros min max x y; simpl.
  - destruct (maxIsZero max); intros [<-|[]]; auto.
  - destruct (maxIsZero max); [intros [<-|[]]; auto|].
    assert (Hit : forall z,
               In z (flat_map
                       (fun y0 =>
                          if Nat.eqb min 0 && Nat.eqb (endIndex y0) (endIndex x) then []
                          else repeatMatcher m ks greedy fuel (Nat.pred min) (decMax max) y0)
                       (m (clearCaptures ks x))) ->
               capturesIn k P (captures x) -> capturesIn k P (captures z)).
    { intros z Hz Hx. apply in_flat_map in Hz as [y0 [Hy0 Hz]].
      destruct (Nat.eqb min 0 && Nat.eqb (endIndex y0) (endIndex x)); [destruct Hz|].
      eapply IH; [exact Hz|]. eapply Hm; [exact Hy0|]. now apply capturesIn_clear. }
    destruct (negb (Nat.eqb min 0)); [apply Hit|].
    destruct greedy.
    + intro H. apply in_app_or in H as [H|[<-|[]]]; [now apply Hit | auto].
    + intros [<-|H]; [auto | now apply Hit].
Qed.

(** A sound group keeps the captures of its number within [P]. *)
Lemma run_capturesIn (k : nat) (P : string -> Prop) (r : regex) :
  groupSound ic k P r ->
  forall x y, In y (run ic r x) ->
              capturesIn k P (captures x) -> capturesIn k P (captures y).
Proof.
  induction r as [ |c| |inv atoms| |r1 IH1 r2 IH2|r1 IH1 r2 IH2|j r1 IH1|mn mx g r1 IH1];
    simpl; intros Hs x y Hy Hx.
  - destruct Hy as [<-|[]]. exact Hx.
  - now rewrite (consume_captures _ _ _ Hy).
  - now rewrite (consume_captures _ _ _ Hy).
  - now rewrite (consume_captures _ _ _ Hy).
  - destruct (xorb _ _); [destruct Hy as [<-|[]]; exact Hx | destruct Hy].
  - destruct Hs as [Hs1 Hs2]. apply in_flat_map in Hy as [z [Hz Hy]].
    eapply IH2; eauto.
  - destruct Hs as [Hs1 Hs2].
    apply in_app_or in Hy as [Hy|Hy]; [eapply IH1 | eapply IH2]; eauto.
  - destruct Hs as [Hj Hs1]. apply in_map_iff in Hy as [z [<- Hz]].
    unfold capturesIn. simpl. intro v.
    destruct (Nat.eqb_spec j k) as [Hjk|_].
    + intros [= <-]. exact (Hj Hjk x z Hz).
    + apply (IH1 Hs1 x z Hz Hx).
  - eapply repeatMatcher_capturesIn; eauto.
Qed.

(** In the result of [exec], every capture of a sound group lies in [P]. *)
Lemma exec_capturesIn (k : nat) (P : string -> Prop) (r : regex) (t : string)
      (m : matchResult) (v : string) :
  groupSound ic (S k) P r ->
  exec ic r t = Some m -> group m (S k) = Some v -> P v.
Proof.
  intros Hs He Hv. unfold exec in He.
  assert (H : forall p i, execFrom ic r p t i = Some m -> capturesIn (S k) P (groups m)).
  { clear He Hv. induction t as [|c t IH]; intros p i; simpl; unfold matchAt.
    - destruct (run ic r _) as [|y l] eqn:E; [discriminate|].
      intros [= <-]. simpl.
      apply (run_capturesIn _ _ _ Hs (mkState p "" i []) y).
      + rewrite E. now left.
      + intros w Hw. discriminate.
    - destruct (run ic r _) as [|y l] eqn:E.
      + apply IH.
      + intros [= <-]. simpl.
        apply (run_capturesIn _ _ _ Hs (mkState p (String c t) i []) y).
        * rewrite E. now left.
        * intros w Hw. discriminate. }
  exact (H _ _ He v Hv).
Qed.

End Captures.

(** ** Character classes, read as predicates *)

Section Classes.

Lemma allAscii_complete (ch : ascii) : In ch allAscii.
Proof.
  unfold allAscii. apply in_map_iff. exists (nat_of_ascii ch). split.
  - apply ascii_nat_embedding.
  - apply in_seq. pose proof (nat_ascii_bounded ch). lia.
Qed.

(** A test that holds on each of the 256 code units holds everywhere. *)
Lemma forall_ascii (p : ascii -> bool) :
  forallb p allAscii = true -> forall ch, p ch = true.
Proof.
  intros H ch. rewrite forallb_forall in H. apply H, allAscii_complete.
Qed.

Lemma allChars_ext (p q : ascii -> bool) (v : string) :
  (forall ch, p ch = q ch) -> allChars p v = allChars q v.
Proof.
  intro H. induction v as [|c v IH]; simpl; [reflexivity | now rewrite H, IH].
Qed.

Lemma someChars_ext (p q : ascii -> bool) (v : string) :
  (forall ch, p ch = q ch) -> someChars p v -> someChars q v.
Proof.
  intros H [Hne Hall]. split; [exact Hne|]. now rewrite <- (allChars_ext p q v H).
Qed.

Lemma numberClass_predicate (ch : ascii) :
  classPredicate true false [CDigit; CChar "."] ch = isNumberChar ch.
Proof.
  apply eqb_prop.
  apply (forall_ascii
           (fun c => Bool.eqb (classPredicate true false [CDigit; CChar "."] c)
                              (isNumberChar c))).
  vm_compute. reflexivity.
Qed.

Lemma valueClass_predicate (ch : ascii) :
  classPredicate true false [CWord; CChar "."] ch = isValueChar ch.
Proof.
  apply eqb_prop.
  apply (forall_ascii
           (fun c => Bool.eqb (classPredicate true false [CWord; CChar "."] c)
                              (isValueChar c))).
  vm_compute. reflexivity.
Qed.

Lemma unquotedClass_predicate (ch : ascii) :
  classPredicate true true [CChar apostrophe; CChar doubleQuote; CSpace] ch =
  isUnquotedChar ch.
Proof.
  apply eqb_prop.
  apply (forall_ascii
           (fun c => Bool.eqb
                       (classPredicate true true
                          [CChar apostrophe; CChar doubleQuote; CSpace] c)
                       (isUnquotedChar c))).
  vm_compute. reflexivity.
Qed.

Lemma digitClass_predicate (ch : ascii) :
  classPredicate true false [CDigit] ch = isDigit ch.
Proof. unfold classPredicate. simpl. now rewrite orb_false_r. Qed.

Lemma operatorClass_predicate (ch : ascii) :
  classPredicate true false [CChar ">"; CChar "<"; CChar "="] ch =
  (Ascii.eqb ch ">" || Ascii.eqb ch "<" || Ascii.eqb ch "=").
Proof.
  apply eqb_prop.
  apply (forall_ascii
           (fun c => Bool.eqb
                       (classPredicate true false [CChar ">"; CChar "<"; CChar "="] c)
                       (Ascii.eqb c ">" || Ascii.eqb c "<" || Ascii.eqb c "="))).
  vm_compute. reflexivity.
Qed.

Lemma equalsSign_predicate (ch : ascii) :
  Ascii.eqb (canonicalize true "=") (canonicalize true ch) = Ascii.eqb ch "=".
Proof.
  apply eqb_prop.
  apply (forall_ascii
           (fun c => Bool.eqb (Ascii.eqb (canonicalize true "=") (canonicalize true c))
                              (Ascii.eqb c "="))).
  vm_compute. reflexivity.
Qed.

End Classes.

(** ** Literal words and optional parts *)

Section Literals.

Variable ic : bool.

Lemma lit_consumed (w : string) (x y : state) :
  In y (run ic (lit w) x) ->
  exists u, advances x y u /\
            mapString (canonicalize ic) u = mapString (canonicalize ic) w.
Proof.
  revert x y. induction w as [|c w IH]; intros x y Hy.
  - simpl in Hy. destruct Hy as [<-|[]]. exists "". split; [apply advances_refl | reflexivity].
  - assert (Hc : forall x0 y0,
               In y0 (run ic (Char c) x0) ->
               exists ch, advances x0 y0 (String ch "") /\
                          canonicalize ic ch = canonicalize ic c).
    { intros x0 y0 H0. cbn [run] in H0.
      apply consume_advances in H0 as (ch & Hp & Hu & _).
      exists ch. split; [exact Hu|]. symmetry. now apply Ascii.eqb_eq. }
    destruct w as [|c' w'].
    + cbn [lit] in Hy. apply Hc in Hy as (ch & Hu & Hch).
      exists (String ch ""). split; [exact Hu|]. simpl. now rewrite Hch.
    + change (lit (String c (String c' w'))) with (Seq (Char c) (lit (String c' w'))) in Hy.
      cbn [run] in Hy. apply in_flat_map in Hy as [z [Hz Hy]].
      apply Hc in Hz as (ch & Hu & Hch). apply IH in Hy as (v & Hv & Hcv).
      exists (String ch "" ++ v). split; [eapply advances_trans; eauto|].
      cbn [append mapString]. now rewrite Hch, Hcv.
Qed.

Lemma words_consumed (w0 : string) (ws' : list string) (x y : state) :
  In y (run ic (words (w0 :: ws')) x) ->
  exists w u, In w (w0 :: ws') /\ advances x y u /\
              mapString (canonicalize ic) u = mapString (canonicalize ic) w.
Proof.
  unfold words. revert w0 x y. induction ws' as [|w1 ws' IH]; intros w0 x y Hy.
  - cbn [map alts] in Hy. apply lit_consumed in Hy as (u & Hu & Hc).
    exists w0, u. split; [now left|]. split; [exact Hu | exact Hc].
  - change (alts (map lit (w0 :: w1 :: ws')))
      with (Alt (lit w0) (alts (map lit (w1 :: ws')))) in Hy.
    cbn [run] in Hy. apply in_app_or in Hy as [Hy|Hy].
    + apply lit_consumed in Hy as (u & Hu & Hc).
      exists w0, u. split; [now left|]. split; [exact Hu | exact Hc].
    + apply IH in Hy as (w & u & Hin & Hu & Hc).
      exists w, u. split; [now right|]. split; [exact Hu | exact Hc].
Qed.

(** [r?] matches [r] once or nothing. *)
Lemma opt_results (r : regex) (x y : state) :
  In y (run ic (opt r) x) ->
  y = x \/ In y (run ic r (clearCaptures (groupsOf r) x)).
Proof.
  unfold opt. cbn [run]. rewrite Nat.add_0_l.
  destruct (String.length (rest x)) as [|fuel]; cbn [repeatMatcher maxIsZero].
  - intros [<-|[]]. now left.
  - cbn [Nat.eqb negb andb]. intro Hy.
    apply in_app_or in Hy as [Hy|[<-|[]]]; [|now left].
    apply in_flat_map in Hy as [y0 [Hy0 Hy]].
    destruct (Nat.eqb (endIndex y0) (endIndex x)); [destruct Hy|].
    cbn [decMax Nat.pred] in Hy. destruct fuel; cbn [repeatMatcher maxIsZero] in Hy;
      destruct Hy as [<-|[]]; now right.
Qed.

End Literals.

(** ** What the extractors put into a statement *)

Section ExtractorShapes.

Lemma groupSound_nogroups (ic : bool) (k : nat) (P : string -> Prop) (r : regex) :
  memNat k (groupsOf r) = false -> groupSound ic k P r.
Proof.
  induction r as [ |c| |inv atoms| |r1 IH1 r2 IH2|r1 IH1 r2 IH2|j r1 IH1|mn mx g r1 IH1];
    simpl; intro H; auto.
  - rewrite memNat_app in H. apply orb_false_iff in H as [H1 H2]. auto.
  - rewrite memNat_app in H. apply orb_false_iff in H as [H1 H2]. auto.
  - apply orb_false_iff in H as [Hkj H1]. split; [|auto].
    intros ->. rewrite Nat.eqb_refl in Hkj. discriminate.
Qed.

Lemma numberClass_consumed (x y : state) :
  In y (run true numberClass x) -> someChars isNumberChar (consumed x y).
Proof.
  intro Hy. apply plus_class_consumed in Hy.
  exact (someChars_ext _ _ _ numberClass_predicate Hy).
Qed.

Lemma valueClass_consumed (x y : state) :
  In y (run true valueClass x) -> someChars isValueChar (consumed x y).
Proof.
  intro Hy. apply plus_class_consumed in Hy.
  exact (someChars_ext _ _ _ valueClass_predicate Hy).
Qed.

Lemma unquotedWord_consumed (x y : state) :
  In y (run true unquotedWord x) -> someChars isUnquotedChar (consumed x y).
Proof.
  intro Hy. apply plus_class_consumed in Hy.
  exact (someChars_ext _ _ _ unquotedClass_predicate Hy).
Qed.

Lemma digits_consumed (x y : state) :
  In y (run true (plus digit) x) -> someChars isDigit (consumed x y).
Proof.
  intro Hy. apply plus_class_consumed in Hy.
  exact (someChars_ext _ _ _ digitClass_predicate Hy).
Qed.

Lemma operator_consumed (x y : state) :
  In y (run true (Seq (Class false [CChar ">"; CChar "<"; CChar "="]) (opt (Char "="))) x) ->
  In (consumed x y) comparisonOperators.
Proof.
  cbn [run]. intro Hy. apply in_flat_map in Hy as [y0 [Hy0 Hy]].
  apply consume_advances in Hy0 as (ch & Hp & Hu & _).
  change (classPredicate true false [CChar ">"; CChar "<"; CChar "="] ch = true) in Hp.
  rewrite operatorClass_predicate in Hp.
  assert (Hch : ch = ">"%char \/ ch = "<"%char \/ ch = "="%char).
  { apply orb_true_iff in Hp as [Hp|Hp]; [apply orb_true_iff in Hp as [Hp|Hp]|];
      apply Ascii.eqb_eq in Hp; auto. }
  apply opt_results in Hy as [-> | Hy].
  - rewrite (consumed_advances _ _ _ Hu).
    destruct Hch as [-> | [-> | ->]]; simpl; auto.
  - cbn [run] in Hy. apply consume_advances in Hy as (ch2 & Hp2 & Hu2 & _).
    rewrite equalsSign_predicate in Hp2. apply Ascii.eqb_eq in Hp2. subst ch2.
    assert (Hadv : advances x y (String ch "" ++ "=")).
    { eapply advances_trans; [exact Hu|].
      destruct Hu2 as [Hr He]. split; [exact Hr | exact He]. }
    rewrite (consumed_advances _ _ _ Hadv).
    destruct Hch as [-> | [-> | ->]]; simpl; auto 10.
Qed.

Lemma direction_consumed (x y : state) :
  In y (run true (words ["asc"; "desc"]) x) -> isDirection (toUpperCase (consumed x y)).
Proof.
  intro Hy. apply words_consumed in Hy as (w & u & Hin & Hu & Hc).
  rewrite (consumed_advances _ _ _ Hu). unfold toUpperCase, isDirection.
  change (mapString toUpper u = mapString toUpper w) in Hc. rewrite Hc.
  destruct Hin as [<-|[<-|[]]]; [left | right]; reflexivity.
Qed.

Ltac sound_group :=
  repeat first
         [ apply groupSound_nogroups; reflexivity
         | exact I
         | match goal with |- _ /\ _ => split end
         | match goal with |- _ = _ -> _ => let H := fresh in intro H; discriminate H end ].

Lemma greaterRegex_value :
  groupSound true 2 (someChars isNumberChar) greaterRegex.
Proof.
  unfold greaterRegex. cbn [seqs groupSound]. sound_group.
  intros _. exact numberClass_consumed.
Qed.

Lemma lessRegex_value :
  groupSound true 2 (someChars isNumberChar) lessRegex.
Proof.
  unfold lessRegex. cbn [seqs groupSound]. sound_group.
  intros _. exact numberClass_consumed.
Qed.

Lemma equalRegex_value :
  groupSound true 2 (someChars isValueChar) equalRegex.
Proof.
  unfold equalRegex. cbn [seqs groupSound]. sound_group.
  intros _. exact valueClass_consumed.
Qed.

Lemma likeRegex_value :
  groupSound true 2 (someChars isUnquotedChar) likeRegex.
Proof.
  unfold likeRegex. cbn [seqs groupSound]. sound_group.
  intros _. exact unquotedWord_consumed.
Qed.

Lemma compareRegex_operator :
  groupSound true 2 (fun op => In op comparisonOperators) compareRegex.
Proof.
  unfold compareRegex. cbn [seqs groupSound]. sound_group.
  intros _. exact operator_consumed.
Qed.

Lemma compareRegex_value :
  groupSound true 3 (someChars isValueChar) compareRegex.
Proof.
  unfold compareRegex. cbn [seqs groupSound]. sound_group.
  intros _. exact valueClass_consumed.
Qed.

Lemma namedRegex_value :
  groupSound true 1 (someChars isUnquotedChar) namedRegex.
Proof.
  unfold namedRegex. cbn [seqs groupSound]. sound_group.
  intros _. exact unquotedWord_consumed.
Qed.

Lemma orderRegex_direction :
  groupSound true 2 (fun g => isDirection (toUpperCase g)) orderRegex.
Proof.
  unfold orderRegex, opt. cbn [seqs groupSound]. sound_group.
  intros _. exact direction_consumed.
Qed.

Lemma limitRegex_digits :
  groupSound true 1 (someChars isDigit) limitRegex.
Proof.
  unfold limitRegex. cbn [seqs groupSound]. sound_group.
  intros _. exact digits_consumed.
Qed.

End ExtractorShapes.

Section ConditionShapes.

Variables (text : string) (cols : list string).

Lemma collectConditions_all (Q : string -> Prop) (ps : list conditionPattern) :
  (forall p, In p ps ->
             forall m, exec true (regex_of p) text = Some m ->
                       exists o, handler p m = Normal o /\
                                 (forall c, o = Some c -> Q c)) ->
  forall acc, exists extra,
    collectConditions ps text acc = Normal (acc ++ extra)%list /\
    Forall Q extra /\ List.length extra <= List.length ps.
Proof.
  induction ps as [|p ps IH]; intros Hp acc; simpl.
  - exists []. rewrite app_nil_r.
    split; [reflexivity|]. split; [apply Forall_nil | simpl; lia].
  - assert (Hps : forall q, In q ps ->
                            forall m, exec true (regex_of q) text = Some m ->
                                      exists o, handler q m = Normal o /\
                                                (forall c, o = Some c -> Q c)).
    { intros q Hq. apply Hp. now right. }
    assert (Hskip : forall acc0, exists extra,
               collectConditions ps text acc0 = Normal (acc0 ++ extra)%list /\
               Forall Q extra /\ List.length extra <= S (List.length ps)).
    { intro acc0. destruct (IH Hps acc0) as (extra & H1 & H2 & H3).
      exists extra. split; [exact H1|]. split; [exact H2 | lia]. }
    destruct (exec true (regex_of p) text) as [m|] eqn:E; [|apply Hskip].
    destruct (Hp p (or_introl eq_refl) m E) as (o & -> & Ho). simpl.
    destruct o as [c|]; [|apply Hskip].
    destruct (truthy c) eqn:T; [|apply Hskip].
    destruct (IH Hps (acc ++ [c])%list) as (extra & -> & Hextra & Hlen).
    exists (c :: extra). rewrite <- app_assoc.
    split; [reflexivity|]. split.
    + apply Forall_cons; [now apply Ho | exact Hextra].
    + simpl. lia.
Qed.

Ltac capture k r sound E :=
  let v := fresh "v" in
  let Hv := fresh "Hv" in
  let Pv := fresh "Pv" in
  destruct (exec_defines true r (S k) _ _ eq_refl E) as [v Hv];
  pose proof (exec_capturesIn true k _ r _ _ _ sound E Hv) as Pv;
  rewrite ?Hv.

Ltac column w :=
  let c := fresh "c" in
  let Ec := fresh "Ec" in
  destruct (findBestColumnMatch w cols) as [c|] eqn:Ec;
  [ apply findBestColumnMatch_In in Ec as [Ec _]
  | eexists; split; [reflexivity | discriminate] ].

(** Each handler, on a match of its own pattern, returns [null] or a
    condition of its template. *)
Lemma handlers_shape (p : conditionPattern) :
  In p (conditionPatterns cols) ->
  forall m, exec true (regex_of p) text = Some m ->
            exists o, handler p m = Normal o /\
                      (forall c, o = Some c -> conditionShape cols c).
Proof.
  intros Hin m E. unfold conditionPatterns in Hin. cbn [In] in Hin.
  destruct Hin as [<-|[<-|[<-|[<-|[<-|[<-|[]]]]]]]; cbn [regex_of handler] in *.
  - destruct (exec_defines true greaterRegex 1 _ _ eq_refl E) as [w Hw].
    capture 1 greaterRegex greaterRegex_value E.
    unfold columnOfCapture. rewrite Hw. cbn [deref bind orUndefined]. column w.
    eexists. split; [reflexivity|]. intros c' [= <-]. now apply GreaterCondition.
  - destruct (exec_defines true lessRegex 1 _ _ eq_refl E) as [w Hw].
    capture 1 lessRegex lessRegex_value E.
    unfold columnOfCapture. rewrite Hw. cbn [deref bind orUndefined]. column w.
    eexists. split; [reflexivity|]. intros c' [= <-]. now apply LessCondition.
  - destruct (exec_defines true equalRegex 1 _ _ eq_refl E) as [w Hw].
    capture 1 equalRegex equalRegex_value E.
    unfold columnOfCapture. rewrite Hw. cbn [deref bind orUndefined isNaNValue]. column w.
    eexists. split; [reflexivity|]. intros c' [= <-]. now apply EqualCondition.
  - destruct (exec_defines true likeRegex 1 _ _ eq_refl E) as [w Hw].
    capture 1 likeRegex likeRegex_value E.
    unfold columnOfCapture. rewrite Hw. cbn [deref bind orUndefined]. column w.
    eexists. split; [reflexivity|]. intros c' [= <-]. now apply LikeCondition.
  - destruct (exec_defines true compareRegex 1 _ _ eq_refl E) as [w Hw].
    capture 1 compareRegex compareRegex_operator E.
    capture 2 compareRegex compareRegex_value E.
    unfold columnOfCapture. rewrite Hw. cbn [deref bind orUndefined isNaNValue]. column w.
    eexists. split; [reflexivity|]. intros c' [= <-]. now apply CompareCondition.
  - capture 0 namedRegex namedRegex_value E. cbn [orUndefined].
    destruct (findBestColumnMatch "name" cols) as [c|] eqn:Ec.
    + apply findBestColumnMatch_In in Ec as [Ec _].
      eexists. split; [reflexivity|]. intros c' [= <-]. now apply NamedCondition.
    + destruct (findBestColumnMatch "title" cols) as [c|] eqn:Et.
      * apply findBestColumnMatch_In in Et as [Et _].
        eexists. split; [reflexivity|]. intros c' [= <-]. now apply NamedCondition.
      * eexists. split; [reflexivity | discriminate].
Qed.

Lemma extractWhereConditions_all :
  extractWhereConditions text cols = Normal None \/
  exists c cs,
    extractWhereConditions text cols = Normal (Some (join " AND " (c :: cs))) /\
    Forall (conditionShape cols) (c :: cs) /\
    List.length (c :: cs) <= 6.
Proof.
  unfold extractWhereConditions.
  destruct (collectConditions_all (conditionShape cols) (conditionPatterns cols)
              handlers_shape []) as (extra & -> & Hall & Hlen). simpl.
  destruct extra as [|c cs]; [now left|].
  right. exists c, cs. split; [reflexivity|]. split; [exact Hall | exact Hlen].
Qed.

End ConditionShapes.

(** X1: whatever the phrase, the WHERE-condition extractor returns [null]
    or between one and six conditions joined with [" AND "], each of one
    of the six templates: it names a column of the table, and its value is
    made of digits and dots (greater, less), of word characters and dots
    (equal, comparator), or of characters other than quotes and white space
    (LIKE, named), so no quote of the phrase reaches a quoted literal. *)
Theorem extractWhereConditions_shape (text : string) (columnNames : list string) :
  extractWhereConditions text columnNames = Normal None \/
  exists c cs,
    extractWhereConditions text columnNames = Normal (Some (join " AND " (c :: cs))) /\
    Forall (conditionShape columnNames) (c :: cs) /\
    List.length (c :: cs) <= 6.
Proof. apply extractWhereConditions_all. Qed.

Section OtherExtractors.

Lemma resolved_columns (cols requested : list string) :
  Forall (fun c => In c cols)
         (flat_map (fun col => match findBestColumnMatch col cols with
                               | Some matchedColumn => [matchedColumn]
                               | None => []
                               end) requested).
Proof.
  induction requested as [|r requested IH]; simpl; [constructor|].
  apply Forall_app. split; [|exact IH].
  destruct (findBestColumnMatch r cols) as [c|] eqn:E; [|constructor].
  apply findBestColumnMatch_In in E as [E _]. now repeat constructor.
Qed.

Lemma orderRegex_column :
  defines 1 orderRegex = true.
Proof. reflexivity. Qed.

Lemma extractOrderBy_cases (text : string) (cols : list string) :
  extractOrderBy text cols = Normal "" \/
  exists c d, In c cols /\ isDirection d /\
              extractOrderBy text cols = Normal ("ORDER BY " ++ c ++ " " ++ d).
Proof.
  unfold extractOrderBy.
  destruct (exec true orderRegex text) as [m|] eqn:E; [|now left].
  destruct (exec_defines true orderRegex 1 _ _ orderRegex_column E) as [w Hw].
  unfold columnOfCapture. rewrite Hw. cbn [deref bind].
  destruct (findBestColumnMatch w cols) as [c|] eqn:Ec; [|now left].
  apply findBestColumnMatch_In in Ec as [Ec _].
  right. exists c. eexists. split; [exact Ec|]. split; [|reflexivity].
  destruct (group m 2) as [g|] eqn:Eg; [|now left].
  destruct (truthy g); [|now left].
  exact (exec_capturesIn true 1 _ orderRegex _ _ _ orderRegex_direction E Eg).
Qed.

End OtherExtractors.



(** X4: the ORDER BY extractor never throws; it returns the empty string
    or [ORDER BY <column> <direction>] where the column belongs to the
    table and the direction is [ASC] or [DESC]. *)
Theorem extractOrderBy_shape (text : string) (columnNames : list string) :
  extractOrderBy text columnNames = Normal "" \/
  exists c d, In c columnNames /\ (d = "ASC" \/ d = "DESC") /\
              extractOrderBy text columnNames = Normal ("ORDER BY " ++ c ++ " " ++ d).
Proof. apply extractOrderBy_cases. Qed.


(** ** The statements the translator returns *)

Section ReturnedStatements.

Lemma toLowerCase_app (a t : string) :
  toLowerCase (a ++ t) = toLowerCase a ++ toLowerCase t.
Proof.
  unfold toLowerCase. induction a as [|c a IH]; simpl; [reflexivity | now rewrite IH].
Qed.

Lemma includes_app_r (a t u : string) :
  includes t u = true -> includes (a ++ t) u = true.
Proof.
  intro H. induction a as [|c a IH]; simpl; [exact H|].
  rewrite IH. apply orb_true_r.
Qed.

Lemma includes_app_l (t a u : string) :
  includes t u = true -> includes (t ++ a) u = true.
Proof.
  assert (Hs : forall t0 u0, startsWith t0 u0 = true -> startsWith (t0 ++ a) u0 = true).
  { intros t0 u0. revert t0. induction u0 as [|c u0 IHu]; intros [|d t0]; simpl; intro H;
      try reflexivity; try discriminate.
    - destruct (a); reflexivity.
    - apply andb_true_iff in H as [H1 H2]. rewrite H1. simpl. now apply IHu. }
  induction t as [|c t IH]; cbn [includes append]; intro H.
  - rewrite orb_false_r in H. apply includes_startsWith. now apply (Hs "" u).
  - apply orb_true_iff in H as [H|H].
    + change (String c (t ++ a)) with (String c t ++ a). rewrite (Hs _ _ H). reflexivity.
    + rewrite (IH H). apply orb_true_r.
Qed.

Lemma limitExempt_limit (q : string) : limitExempt (q ++ " LIMIT 100") = true.
Proof.
  unfold limitExempt. rewrite toLowerCase_app.
  replace (toLowerCase q ++ toLowerCase " LIMIT 100")
    with ((toLowerCase q ++ " ") ++ "limit" ++ " 100")
    by (rewrite append_assoc; reflexivity).
  now rewrite includes_app.
Qed.

Lemma limitExempt_addLimit (q : string) : limitExempt (addLimit q) = true.
Proof.
  unfold addLimit. destruct (limitExempt q) eqn:E; simpl; [exact E|].
  apply limitExempt_limit.
Qed.

Lemma firstUsable_addLimit (ps : list pattern) (lowerText text : string) (r : result) :
  firstUsable ps lowerText text = Some r ->
  exists q, r = mkResult (addLimit q) None.
Proof.
  unfold firstUsable. destruct (find _ ps) as [p|]; [|discriminate].
  destruct (sqlOf p text) as [q|e]; [|discriminate].
  intros [= <-]. eauto.
Qed.

Lemma fallback_cases (text table : string) (cols : list string) :
  fallback text table cols =
  Normal (mkResult ("SELECT * FROM " ++ table ++ " LIMIT 100") None) \/
  exists c, fallback text table cols =
            Normal (mkResult ("SELECT * FROM " ++ table ++ " WHERE " ++ c ++ " LIMIT 100")
                             None).
Proof.
  unfold fallback.
  destruct (extractWhereConditions_total text cols) as [->|(c & cs & -> & _)]; simpl.
  - now left.
  - destruct (truthy _); [right; eauto | now left].
Qed.

Lemma trimEnd_cons (c : ascii) (t : string) :
  isWhiteSpace c = false -> trimEnd (String c t) = String c (trimEnd t).
Proof. intro H. simpl. destruct (trimEnd t); now rewrite ?H. Qed.

Lemma isSelectQuery_select (t : string) : Server.isSelectQuery ("SELECT " ++ t) = true.
Proof.
  unfold Server.isSelectQuery, trim. cbn [append trimStart].
  change (isWhiteSpace "S") with false. cbn iota.
  rewrite !trimEnd_cons by reflexivity.
  change (startsWith ("select" ++ toLowerCase (trimEnd (String " " t))) "select" = true).
  apply startsWith_app.
Qed.

(** The translator returns a SELECT over the table, and no [error]. *)
Lemma translator_result (text table : string) (cols : list string) :
  exists q, generateSQLFromText text table cols = Normal (mkResult q None) /\
            selectFrom table q.
Proof.
  unfold generateSQLFromText. rewrite tryPatterns_firstUsable. cbn [bind].
  destruct (firstUsable (patterns table cols) (trim (toLowerCase text)) text)
    as [r|] eqn:E.
  - destruct (firstUsable_addLimit _ _ _ _ E) as [q ->].
    apply firstUsable_selectFrom in E as [Hsel _]. eauto.
  - destruct (fallback_cases text table cols) as [->|[c ->]]; eexists; (split; [reflexivity|]).
    + now apply (selectFrom_make table "*" " LIMIT 100").
    + now apply (selectFrom_make table "*" (" WHERE " ++ c ++ " LIMIT 100")).
Qed.

End ReturnedStatements.

(** X6: the translator never sets the [error] field of its result,
    whatever the phrase, the table name and the column list; the branch of
    the [/convert] handler that answers 400 with that field is never
    taken. *)
Theorem generateSQLFromText_no_error (text table : string) (columnNames : list string) :
  exists q, generateSQLFromText text table columnNames = Normal (mkResult q None).
Proof.
  destruct (translator_result text table columnNames) as (q & H & _). eauto.
Qed.

(** X7: every statement the translator returns contains, up to letter
    case, [limit] or one of [count(], [avg(], [sum(], [max(], [min(]: no
    statement leaves without the textual bound the safety check looks
    for. *)
Theorem generateSQLFromText_bounded (text table : string) (columnNames : list string) :
  exists r, generateSQLFromText text table columnNames = Normal r /\
            limitExempt (sqlQuery r) = true.
Proof.
  unfold generateSQLFromText. rewrite tryPatterns_firstUsable. simpl.
  destruct (firstUsable _ _ _) as [r|] eqn:E.
  - apply firstUsable_addLimit in E as [q ->].
    eexists. split; [reflexivity|]. apply limitExempt_addLimit.
  - destruct (fallback_cases text table columnNames) as [->|[c ->]];
      (eexists; split; [reflexivity|]); cbn [sqlQuery].
    + replace ("SELECT * FROM " ++ table ++ " LIMIT 100")
        with (("SELECT * FROM " ++ table) ++ " LIMIT 100")
        by now rewrite append_assoc.
      apply limitExempt_limit.
    + replace ("SELECT * FROM " ++ table ++ " WHERE " ++ c ++ " LIMIT 100")
        with (("SELECT * FROM " ++ table ++ " WHERE " ++ c) ++ " LIMIT 100")
        by now rewrite !append_assoc.
      apply limitExempt_limit.
Qed.

(** X8: adding the safety limit twice is the same as adding it once. *)
Theorem addLimit_idempotent (q : string) : addLimit (addLimit q) = addLimit q.
Proof.
  unfold addLimit at 1. now rewrite limitExempt_addLimit.
Qed.

(** X9: every statement the translator returns passes the test by which
    the [/query] handler tells a SELECT from the other statements, so it
    would be run with [db.all] there too. *)
Theorem generateSQLFromText_isSelectQuery (text table : string) (columnNames : list string) :
  exists r, generateSQLFromText text table columnNames = Normal r /\
            Server.isSelectQuery (sqlQuery r) = true.
Proof.
  unfold generateSQLFromText. rewrite tryPatterns_firstUsable. simpl.
  destruct (firstUsable (patterns table columnNames) (trim (toLowerCase text)) text)
    as [r|] eqn:E.
  - exists r. split; [reflexivity|].
    apply firstUsable_selectFrom in E as [(columns & tail & ->) _].
    apply isSelectQuery_select.
  - destruct (fallback_selectFrom text table columnNames) as [r [-> (columns & tail & H)]].
    exists r. split; [reflexivity|]. rewrite H. apply isSelectQuery_select.
Qed.

Section Padding.

Lemma trimStart_ws (l : string) : allChars isWhiteSpace l = true -> trimStart l = "".
Proof.
  induction l as [|c l IH]; simpl; [reflexivity|].
  intro H. apply andb_true_iff in H as [Hc Hl]. rewrite Hc. now apply IH.
Qed.

Lemma trimStart_app_ws_l (l t : string) :
  allChars isWhiteSpace l = true -> trimStart (l ++ t) = trimStart t.
Proof.
  induction l as [|c l IH]; simpl; [reflexivity|].
  intro H. apply andb_true_iff in H as [Hc Hl]. rewrite Hc. now apply IH.
Qed.

Lemma trimEnd_ws (r : string) : allChars isWhiteSpace r = true -> trimEnd r = "".
Proof.
  induction r as [|c r IH]; simpl; [reflexivity|].
  intro H. apply andb_true_iff in H as [Hc Hr]. now rewrite (IH Hr), Hc.
Qed.

Lemma trimEnd_app_ws_r (t r : string) :
  allChars isWhiteSpace r = true -> trimEnd (t ++ r) = trimEnd t.
Proof.
  intro H. induction t as [|c t IH]; simpl; [now apply trimEnd_ws | now rewrite IH].
Qed.

Lemma trim_app_ws_r (t r : string) :
  allChars isWhiteSpace r = true -> trim (t ++ r) = trim t.
Proof.
  intro H. unfold trim. induction t as [|c t IH]; simpl.
  - now rewrite (trimStart_ws r H).
  - destruct (isWhiteSpace c); [exact IH|].
    change (String c (t ++ r)) with (String c t ++ r). now apply trimEnd_app_ws_r.
Qed.

End Padding.

(** X10: the SELECT test of the [/query] handler ignores white space
    around the statement: padding a statement on either side with blanks,
    tabs or line breaks does not change how it is classified. *)
Theorem isSelectQuery_ignores_padding (l sql r : string) :
  allChars isWhiteSpace l = true ->
  allChars isWhiteSpace r = true ->
  Server.isSelectQuery (l ++ sql ++ r) = Server.isSelectQuery sql.
Proof.
  intros Hl Hr. unfold Server.isSelectQuery.
  assert (H : trim (l ++ sql ++ r) = trim sql).
  { unfold trim. rewrite (trimStart_app_ws_l l _ Hl). apply (trim_app_ws_r sql r Hr). }
  now rewrite H.
Qed.

Lemma isSelectQuery_ignores_padding_witness :
  Server.isSelectQuery (String (ascii_of_nat 10) "  " ++ "Select 1" ++ " ") =
  Server.isSelectQuery "Select 1".
Proof.
  apply (isSelectQuery_ignores_padding (String (ascii_of_nat 10) "  ") "Select 1" " ");
    reflexivity.
Defined.

(** X11: a statement built by one of the four aggregate rules carries its
    own exemption: the safety limit leaves it unchanged, whatever the
    phrase, the column list and the table name. *)
Theorem aggregate_exemption (table : string) (columnNames keywords : list string)
        (fn alias text q : string) :
  In fn ["AVG"; "SUM"; "MAX"; "MIN"] ->
  aggregateBuilder table columnNames keywords fn alias text = Normal q ->
  addLimit q = q.
Proof.
  intros Hfn. unfold aggregateBuilder.
  destruct (extractColumnForAggregate text columnNames keywords) as [column|e];
    cbn [bind]; [|discriminate].
  intros [= <-].
  assert (Hexempt : forall t, limitExempt t = true -> addLimit t = t).
  { intros t Ht. unfold addLimit. now rewrite Ht. }
  apply Hexempt.
  assert (H : limitExempt
                ("SELECT " ++ fn ++ "(" ++ orUndefined column ++ ") as " ++ alias ++ "_" ++
                 orUndefined column ++ " FROM " ++ table) = true).
  { unfold limitExempt.
    replace ("SELECT " ++ fn ++ "(" ++ orUndefined column ++ ") as " ++ alias ++ "_" ++
             orUndefined column ++ " FROM " ++ table)
      with ("SELECT " ++ (fn ++ "(") ++ orUndefined column ++ ") as " ++ alias ++ "_" ++
            orUndefined column ++ " FROM " ++ table)
      by now rewrite (append_assoc fn).
    rewrite !(toLowerCase_app "SELECT "), !(toLowerCase_app (fn ++ "(")).
    destruct Hfn as [<-|[<-|[<-|[<-|[]]]]];
      match goal with
      | |- context [toLowerCase (?f ++ "(")] =>
          let v := eval vm_compute in (toLowerCase (f ++ "(")) in
          change (toLowerCase (f ++ "(")) with v
      end;
      rewrite includes_app; rewrite ?orb_true_r; reflexivity. }
  exact H.
Qed.

Lemma aggregate_exemption_witness :
  addLimit "SELECT AVG(price) as average_price FROM users" =
  "SELECT AVG(price) as average_price FROM users".
Proof.
  apply (aggregate_exemption "users" ["id"; "price"; "qty"] ["avg"; "average"; "mean"]
           "AVG" "average" "average price").
  - now left.
  - vm_compute. reflexivity.
Defined.

(** X12: the safety check is textual, so a table whose name contains
    [limit] (up to letter case) switches it off: when the "select all"
    rule is the one used, the statement returned for such a table is the
    bare [SELECT * FROM <table>], with no LIMIT clause. *)
Theorem limit_in_table_name_suppresses_limit
        (text table : string) (columnNames : list string) :
  test true countAllRegex (trim (toLowerCase text)) = false ->
  test true countRegex (trim (toLowerCase text)) = false ->
  test true selectAllRegex (trim (toLowerCase text)) = true ->
  includes (toLowerCase table) "limit" = true ->
  generateSQLFromText text table columnNames =
  Normal (mkResult ("SELECT * FROM " ++ table) None).
Proof.
  intros H1 H2 H3 Ht. unfold generateSQLFromText, patterns.
  cbn [tryPatterns pattern_regex]. rewrite H1, H2, H3.
  cbn [sqlOf sql bind tryCatch]. unfold addLimit, limitExempt.
  rewrite toLowerCase_app, (includes_app_r _ _ _ Ht). reflexivity.
Qed.

Lemma limit_in_table_name_suppresses_limit_witness :
  generateSQLFromText "show me all" "limits" ["id"; "name"] =
  Normal (mkResult ("SELECT * FROM " ++ "limits") None).
Proof.
  apply (limit_in_table_name_suppresses_limit "show me all" "limits" ["id"; "name"]);
    vm_compute; reflexivity.
Defined.

(** X13: when the "find records where / filter by" rule is the one used
    and no condition can be extracted from the phrase, the value [null] is
    spliced into the statement: it reads
    [SELECT * FROM <table> WHERE null], before the safety limit. *)
Theorem filter_rule_without_condition
        (text table : string) (columnNames : list string) :
  test true countAllRegex (trim (toLowerCase text)) = false ->
  test true countRegex (trim (toLowerCase text)) = false ->
  test true selectAllRegex (trim (toLowerCase text)) = false ->
  test true filterRegex (trim (toLowerCase text)) = true ->
  extractWhereConditions text columnNames = Normal None ->
  generateSQLFromText text table columnNames =
  Normal (mkResult (addLimit ("SELECT * FROM " ++ table ++ " WHERE null")) None).
Proof.
  intros H1 H2 H3 H4 Hc. unfold generateSQLFromText, patterns.
  cbn [tryPatterns pattern_regex]. rewrite H1, H2, H3, H4.
  cbn [sqlOf sql]. rewrite Hc. reflexivity.
Qed.

Lemma filter_rule_without_condition_witness :
  generateSQLFromText "filter by nothing" "users" ["id"; "name"] =
  Normal (mkResult (addLimit ("SELECT * FROM " ++ "users" ++ " WHERE null")) None).
Proof.
  apply (filter_rule_without_condition "filter by nothing" "users" ["id"; "name"]);
    vm_compute; reflexivity.
Defined.

(** ** The /convert handler *)

Section Convert.

Variable Rows : Type.

(** The handler, past its guard and a readable schema, runs the
    translator's statement and nothing else. *)
Lemma convert_cases (getDBConnection : string -> Server.connection Rows)
      (text database table : option string) :
  (Server.falsy text || Server.falsy database || Server.falsy table = true /\
   Server.convert getDBConnection text database table =
   Normal (Server.ConvertError 400 "Text, database, and table are required")) \/
  (Server.falsy text || Server.falsy database || Server.falsy table = false /\
   exists message,
     Server.convert getDBConnection text database table =
     Normal (Server.ConvertError 500 message)) \/
  (Server.falsy text || Server.falsy database || Server.falsy table = false /\
   exists q rows,
     selectFrom (orUndefined table) q /\
     Server.all (getDBConnection (orUndefined database)) q = Server.DbOk rows /\
     Server.convert getDBConnection text database table =
     Normal (Server.ConvertOk (orUndefined text) q rows)).
Proof.
  unfold Server.convert.
  destruct (Server.falsy text || Server.falsy database || Server.falsy table) eqn:G;
    [left; split; reflexivity | right].
  destruct (Server.tableInfo _ _) as [message|columns]; [left; split; eauto|].
  destruct (translator_result (orUndefined text) (orUndefined table)
              (map Server.name columns)) as (q & -> & Hsel).
  cbn [bind error sqlQuery].
  destruct (Server.all _ q) as [message|rows] eqn:A.
  - left. split; eauto.
  - right. split; [reflexivity|]. exists q, rows. auto.
Qed.

End Convert.


(** X15: after its schema query, the [/convert] handler hands the
    database nothing but a SELECT over the requested table: two databases
    that agree on the schema queries and on every statement of the form
    [SELECT ... FROM <table>...] get the same answer from it. *)
Theorem convert_only_selects
        (Rows : Type) (db1 db2 : string -> Server.connection Rows)
        (text database table : option string) :
  (forall d sql, Server.tableInfo (db1 d) sql = Server.tableInfo (db2 d) sql) ->
  (forall d sql, selectFrom (orUndefined table) sql ->
                 Server.all (db1 d) sql = Server.all (db2 d) sql) ->
  Server.convert db1 text database table = Server.convert db2 text database table.
Proof.
  intros Hinfo Hall. unfold Server.convert.
  destruct (Server.falsy text || Server.falsy database || Server.falsy table);
    [reflexivity|].
  rewrite Hinfo. destruct (Server.tableInfo _ _) as [message|columns]; [reflexivity|].
  destruct (translator_result (orUndefined text) (orUndefined table)
              (map Server.name columns)) as (q & -> & Hsel).
  cbn [bind error sqlQuery]. now rewrite (Hall _ _ Hsel).
Qed.

Lemma convert_only_selects_witness :
  Server.convert
    (fun _ => Server.mkConnection nat (fun _ => Server.DbOk [Server.mkColumnInfo "id" "INTEGER"])
                                  (fun _ => Server.DbOk 1))
    (Some "show me all") (Some "main") (Some "users") =
  Server.convert
    (fun _ => Server.mkConnection nat (fun _ => Server.DbOk [Server.mkColumnInfo "id" "INTEGER"])
                                  (fun sql => if startsWith sql "SELECT "
                                              then Server.DbOk 1 else Server.DbOk 2))
    (Some "show me all") (Some "main") (Some "users").
Proof.
  apply (convert_only_selects nat).
  - intros d sql. reflexivity.
  - intros d sql (columns & tail & ->). cbn [Server.all].
    rewrite startsWith_app. reflexivity.
Defined.

Section QueryForm.

Lemma truthy_trim (t : string) : truthy (trim t) = true -> truthy t = true.
Proof. destruct t; [discriminate | reflexivity]. Qed.

End QueryForm.

(** X16: a request that the query form sends (it sends none unless a
    database and a table are selected and the phrase is not blank) is
    never answered 400 by the [/convert] handler. *)
Theorem executeQuery_request_accepted
        (Rows : Type) (getDBConnection : string -> Server.connection Rows)
        (selectedDatabase selectedTable query text database table : string) :
  App.executeQuery selectedDatabase selectedTable query = inr (text, database, table) ->
  exists response,
    Server.convert getDBConnection (Some text) (Some database) (Some table) =
    Normal response /\
    forall message, response <> Server.ConvertError 400 message.
Proof.
  unfold App.executeQuery.
  destruct (truthy selectedDatabase) eqn:Hd; [|discriminate].
  destruct (truthy selectedTable) eqn:Ht; [|discriminate].
  destruct (truthy (trim query)) eqn:Hq; [|discriminate].
  cbn [negb orb]. intros [= <- <- <-].
  apply truthy_trim in Hq.
  destruct (convert_cases Rows getDBConnection
              (Some query) (Some selectedDatabase) (Some selectedTable))
    as [[G _]|[[_ [m ->]]|[_ (q & rows & _ & _ & ->)]]].
  - cbn [Server.falsy] in G. rewrite Hq, Hd, Ht in G. discriminate.
  - eexists. split; [reflexivity | discriminate].
  - eexists. split; [reflexivity | discriminate].
Qed.

Lemma executeQuery_request_accepted_witness :
  exists response,
    Server.convert
      (fun _ => Server.mkConnection nat (fun _ => Server.DbOk [Server.mkColumnInfo "id" "INTEGER"])
                                    (fun _ => Server.DbOk 1))
      (Some " show me all ") (Some "main") (Some "users") = Normal response /\
    forall message, response <> Server.ConvertError 400 message.
Proof.
  apply (executeQuery_request_accepted nat _ "main" "users" " show me all ").
  reflexivity.
Defined.

(** ** The data handlers *)

Section DataHandlers.

Variable Value : Type.

Lemma countChar_app (c : ascii) (a t : string) :
  countChar c (a ++ t) = countChar c a + countChar c t.
Proof. induction a as [|d a IH]; simpl; [reflexivity | rewrite IH; lia]. Qed.

Lemma countChar_join_none (c : ascii) (sep : string) (xs : list string) :
  countChar c sep = 0 ->
  Forall (fun x => countChar c x = 0) xs ->
  countChar c (join sep xs) = 0.
Proof.
  intros Hsep H. induction H as [|x xs Hx _ IH]; [reflexivity|].
  destruct xs as [|y ys]; [exact Hx|].
  change (join sep (x :: y :: ys)) with (x ++ sep ++ join sep (y :: ys)).
  rewrite !countChar_app, Hx, Hsep, IH. reflexivity.
Qed.

Lemma countChar_join_each (c : ascii) (sep : string) (xs : list string) :
  countChar c sep = 0 ->
  Forall (fun x => countChar c x = 1) xs ->
  countChar c (join sep xs) = List.length xs.
Proof.
  intros Hsep H. induction H as [|x xs Hx _ IH]; [reflexivity|].
  destruct xs as [|y ys]; [exact Hx|].
  change (join sep (x :: y :: ys)) with (x ++ sep ++ join sep (y :: ys)).
  rewrite !countChar_app, Hx, Hsep, IH. reflexivity.
Qed.

Lemma existsb_eqb_In (col : string) (names : list string) :
  existsb (String.eqb col) names = true <-> In col names.
Proof.
  rewrite existsb_exists. split.
  - intros (x & Hx & E). apply String.eqb_eq in E. now subst.
  - intro H. exists col. split; [exact H | apply String.eqb_refl].
Qed.

Lemma invalid_none (names keys : list string) :
  filter (fun col => negb (existsb (String.eqb col) names)) keys = [] <->
  Forall (fun k => In k names) keys.
Proof.
  induction keys as [|k keys IH]; simpl.
  - split; [constructor | reflexivity].
  - destruct (existsb (String.eqb k) names) eqn:E; simpl.
    + rewrite IH. split.
      * intro H. constructor; [now apply existsb_eqb_In | exact H].
      * intro H. now inversion H.
    + split; [discriminate|].
      intro H. inversion H as [|? ? Hk _]; subst.
      apply existsb_eqb_In in Hk. congruence.
Qed.

(** The outcome of [insertData] once the data object and the schema are
    there. *)
Lemma insertData_cases (table : string) (data : Server.dataObject Value)
      (columns : list Server.columnInfo) :
  (Forall (fun k => In k (map Server.name columns)) (map fst data) /\
   Server.insertData table (Some data) (Server.DbOk columns) =
   Server.Submitted
     ("INSERT INTO " ++ table ++ " (" ++ join ", " (map fst data) ++ ") VALUES (" ++
      join ", " (map (fun _ => "?") (map fst data)) ++ ")")
     (map (fun col => Server.property col data) (map fst data))) \/
  (~ Forall (fun k => In k (map Server.name columns)) (map fst data) /\
   exists message,
     Server.insertData table (Some data) (Server.DbOk columns) =
     Server.Rejected 400 message).
Proof.
  unfold Server.insertData.
  destruct (filter _ (map fst data)) as [|bad rest] eqn:E.
  - left. split; [now apply invalid_none | reflexivity].
  - right. split; [|eauto]. intro H. apply invalid_none in H. congruence.
Qed.

Lemma property_own (data : Server.dataObject Value) :
  NoDup (map fst data) ->
  map (fun col => Server.property col data) (map fst data) =
  map (fun kv => Some (snd kv)) data.
Proof.
  induction data as [|[k v] data IH]; simpl; intro H; [reflexivity|].
  inversion H as [|? ? Hk Hnd]; subst. rewrite String.eqb_refl. f_equal.
  rewrite <- (IH Hnd). apply map_ext_in. intros col Hcol.
  destruct (String.eqb_spec k col) as [->|_]; [contradiction | reflexivity].
Qed.

End DataHandlers.


(** X18: when no column name of the table and not the table name itself
    contains a question mark, the INSERT handed to the database has as
    many [?] placeholders as values bound to it. *)
Theorem insertData_placeholders (Value : Type) (table : string)
        (data : Server.dataObject Value) (columns : list Server.columnInfo)
        (sql : string) (values : list (option Value)) :
  countChar "?" table = 0 ->
  Forall (fun c => countChar "?" (Server.name c) = 0) columns ->
  Server.insertData table (Some data) (Server.DbOk columns) = Server.Submitted sql values ->
  countChar "?" sql = List.length values.
Proof.
  intros Ht Hc.
  destruct (insertData_cases Value table data columns) as [[H ->]|[_ [m ->]]];
    [|discriminate].
  intro Heq.
  assert (Hkeys : Forall (fun k => countChar "?" k = 0) (map fst data)).
  { eapply Forall_impl; [|exact H]. intros k Hk.
    apply in_map_iff in Hk as (c & <- & Hin).
    rewrite Forall_forall in Hc. now apply Hc. }
  assert (Hcount :
            countChar "?"
              ("INSERT INTO " ++ table ++ " (" ++ join ", " (map fst data) ++ ") VALUES (" ++
               join ", " (map (fun _ => "?") (map fst data)) ++ ")") =
            List.length (map (fun col => Server.property col data) (map fst data))).
  { rewrite !countChar_app, Ht, (countChar_join_none "?" ", " _ eq_refl Hkeys).
    rewrite (countChar_join_each "?" ", " (map (fun _ => "?") (map fst data)) eq_refl).
    - rewrite !length_map. simpl. lia.
    - apply Forall_forall. intros x Hx. apply in_map_iff in Hx as (k & <- & _).
      reflexivity. }
  injection Heq as <- <-. exact Hcount.
Qed.

Lemma insertData_placeholders_witness :
  countChar "?" "INSERT INTO t (a, b) VALUES (?, ?)" = List.length [Some 1; Some 2].
Proof.
  apply (insertData_placeholders nat "t" [("a", 1); ("b", 2)]
           [Server.mkColumnInfo "a" "INTEGER"; Server.mkColumnInfo "b" "INTEGER"]).
  - reflexivity.
  - repeat (apply Forall_cons; [reflexivity|]). apply Forall_nil.
  - reflexivity.
Defined.

(** X19: the values bound to the INSERT are the values of the data
    object, in the order of its keys (an object has no key twice). *)
Theorem insertData_values (Value : Type) (table : string)
        (data : Server.dataObject Value) (columns : list Server.columnInfo)
        (sql : string) (values : list (option Value)) :
  NoDup (map fst data) ->
  Server.insertData table (Some data) (Server.DbOk columns) = Server.Submitted sql values ->
  values = map (fun kv => Some (snd kv)) data.
Proof.
  intros Hnd.
  destruct (insertData_cases Value table data columns) as [[H ->]|[_ [m ->]]];
    [|discriminate].
  intros [= _ <-]. now apply property_own.
Qed.

Lemma insertData_values_witness :
  [Some 1; Some 2] = map (fun kv => Some (snd kv)) [("a", 1); ("b", 2)].
Proof.
  apply (insertData_values nat "t" [("a", 1); ("b", 2)]
           [Server.mkColumnInfo "a" "INTEGER"; Server.mkColumnInfo "b" "INTEGER"]
           "INSERT INTO t (a, b) VALUES (?, ?)").
  - repeat constructor; simpl; intuition discriminate.
  - reflexivity.
Defined.



(** ** Database files and connections *)

Section Databases.

Lemma endsWith_app (a suffix : string) : Server.endsWith (a ++ suffix) suffix = true.
Proof.
  induction a as [|c a IH]; simpl.
  - destruct suffix; cbn [Server.endsWith]; now rewrite String.eqb_refl.
  - rewrite IH. apply orb_true_r.
Qed.

Lemma includes_cons (c : ascii) (t u : string) :
  includes (String c t) u = false ->
  startsWith (String c t) u = false /\ includes t u = false.
Proof. cbn [includes]. intro H. now apply orb_false_iff in H. Qed.

(** An occurrence of [.db] cannot straddle the end of a name that is
    followed by [.db]: it would have to start with a [d] or a [b]. *)
Lemma startsWith_db_app (c : ascii) (t : string) :
  startsWith (String c t) ".db" = false ->
  startsWith (String c t ++ ".db") ".db" = false.
Proof.
  destruct t as [|d [|e t]]; cbn [append startsWith].
  - intros _. destruct (Ascii.eqb "." c); reflexivity.
  - intros _. destruct (Ascii.eqb "." c), (Ascii.eqb "d" d); reflexivity.
  - intro H. destruct (Ascii.eqb "." c), (Ascii.eqb "d" d), (Ascii.eqb "b" e);
      simpl in *; try reflexivity. destruct t; discriminate.
Qed.

Lemma replace_db_suffix (dbName : string) :
  includes dbName ".db" = false ->
  Server.replace ".db" "" (dbName ++ ".db") = dbName.
Proof.
  induction dbName as [|c t IH]; intro H.
  - reflexivity.
  - apply includes_cons in H as [Hs Hi].
    change (Server.replace ".db" "" (String c t ++ ".db"))
      with (if startsWith (String c t ++ ".db") ".db"
            then "" ++ Server.dropChars 3 (String c t ++ ".db")
            else String c (Server.replace ".db" "" (t ++ ".db"))).
    now rewrite (startsWith_db_app c t Hs), (IH Hi).
Qed.

End Databases.

(** X21: [getDatabases] lists a database under its own name when that
    name does not itself contain [.db]: for such names, the files
    [<name>.db] of the directory come back as the names, in order.  (The
    extension is removed by replacing the first [.db] of the file name, so
    a name with [.db] inside comes back changed.) *)
Theorem getDatabases_lists_names (dbNames : list string) :
  Forall (fun dbName => includes dbName ".db" = false) dbNames ->
  Server.getDatabases (map (fun dbName => dbName ++ ".db") dbNames) = dbNames.
Proof.
  unfold Server.getDatabases.
  induction 1 as [|dbName dbNames Hn _ IH]; [reflexivity|].
  cbn [map filter]. rewrite endsWith_app. cbn [map].
  now rewrite (replace_db_suffix dbName Hn), IH.
Qed.

Lemma getDatabases_lists_names_witness :
  Server.getDatabases (map (fun dbName => dbName ++ ".db") ["shop"; "my.d"]) =
  ["shop"; "my.d"].
Proof.
  apply (getDatabases_lists_names ["shop"; "my.d"]).
  repeat (apply Forall_cons; [reflexivity|]). apply Forall_nil.
Defined.

Section Connections.

Lemma mapGet_mapSet_same (dbName : string) (db : Server.handle)
      (entries : list (string * Server.handle)) :
  Server.mapGet dbName (Server.mapSet dbName db entries) = Some db.
Proof.
  induction entries as [|[k h] entries IH]; simpl.
  - now rewrite String.eqb_refl.
  - destruct (String.eqb k dbName) eqn:E; simpl; rewrite E; [reflexivity | exact IH].
Qed.

Lemma mapGet_mapSet_other (dbName other : string) (db : Server.handle)
      (entries : list (string * Server.handle)) :
  other <> dbName ->
  Server.mapGet other (Server.mapSet dbName db entries) = Server.mapGet other entries.
Proof.
  intro Hne. induction entries as [|[k h] entries IH]; simpl.
  - destruct (String.eqb_spec dbName other); [congruence | reflexivity].
  - destruct (String.eqb_spec k dbName) as [->|Hk]; simpl.
    + destruct (String.eqb_spec dbName other); [congruence | reflexivity].
    + now rewrite IH.
Qed.

(** A stored handle is what [getDBConnection] returns, and the store
    stays as it is. *)
Lemma getDBConnection_hit (dbName : string) (st : Server.connections) (h : Server.handle) :
  Server.mapGet dbName (Server.dbConnections st) = Some h ->
  Server.getDBConnection dbName st = (Some h, st).
Proof. intro H. unfold Server.getDBConnection. now rewrite H, H. Qed.

(** A call never disturbs the handle stored for a name. *)
Lemma getDBConnection_keeps (dbName other : string) (st : Server.connections)
      (h : Server.handle) :
  Server.mapGet other (Server.dbConnections st) = Some h ->
  Server.mapGet other (Server.dbConnections (snd (Server.getDBConnection dbName st))) =
  Some h.
Proof.
  intro H. unfold Server.getDBConnection. cbn [snd].
  destruct (Server.mapGet dbName (Server.dbConnections st)) as [h0|] eqn:E; [exact H|].
  cbn [Server.dbConnections]. rewrite mapGet_mapSet_other; [exact H|].
  intros ->. congruence.
Qed.

Lemma afterCalls_keeps (dbNames : list string) (other : string)
      (st : Server.connections) (h : Server.handle) :
  Server.mapGet other (Server.dbConnections st) = Some h ->
  Server.mapGet other (Server.dbConnections (afterCalls dbNames st)) = Some h.
Proof.
  revert st. induction dbNames as [|n dbNames IH]; intros st H; simpl; [exact H|].
  apply IH. now apply getDBConnection_keeps.
Qed.

Lemma getDBConnection_stores (dbName : string) (st : Server.connections) :
  exists h,
    fst (Server.getDBConnection dbName st) = Some h /\
    Server.mapGet dbName (Server.dbConnections (snd (Server.getDBConnection dbName st))) =
    Some h.
Proof.
  unfold Server.getDBConnection. cbn [fst snd].
  destruct (Server.mapGet dbName (Server.dbConnections st)) as [h0|] eqn:E.
  - exists h0. now rewrite E.
  - cbn [Server.dbConnections]. rewrite mapGet_mapSet_same. eauto.
Qed.

End Connections.

(** X22: a database is opened once.  The handle that [getDBConnection]
    returns for a name is returned again by every later call for that
    name, whatever calls for this or other names come in between, and
    such a later call opens nothing and leaves the store as it is. *)
Theorem getDBConnection_reuses_handle (dbName : string) (others : list string)
        (st : Server.connections) :
  exists h,
    fst (Server.getDBConnection dbName st) = Some h /\
    Server.getDBConnection dbName
      (afterCalls others (snd (Server.getDBConnection dbName st))) =
    (Some h, afterCalls others (snd (Server.getDBConnection dbName st))).
Proof.
  destruct (getDBConnection_stores dbName st) as (h & Hf & Hs).
  exists h. split; [exact Hf|].
  apply getDBConnection_hit. now apply afterCalls_keeps.
Qed.

(** ** The table form *)

Section TableForm.

Lemma mapIndexFrom_length (f : nat -> App.column -> App.column) (cols : list App.column) :
  forall i, List.length (App.mapIndexFrom i f cols) = List.length cols.
Proof. induction cols as [|c cols IH]; intro i; simpl; [reflexivity | now rewrite IH]. Qed.

Lemma mapIndexFrom_fuse (f g : nat -> App.column -> App.column) (cols : list App.column) :
  forall i, App.mapIndexFrom i g (App.mapIndexFrom i f cols) =
            App.mapIndexFrom i (fun j c => g j (f j c)) cols.
Proof. induction cols as [|c cols IH]; intro i; simpl; [reflexivity | now rewrite IH]. Qed.

(** A pass that switches no primary key on does not raise their number. *)
Lemma primaryKeys_mapIndexFrom (f : nat -> App.column -> App.column)
      (cols : list App.column) :
  (forall j c, App.primaryKey (f j c) = true -> App.primaryKey c = true) ->
  forall i, primaryKeys (App.mapIndexFrom i f cols) <= primaryKeys cols.
Proof.
  intros Hf. unfold primaryKeys.
  induction cols as [|c cols IH]; intro i; simpl; [lia|].
  specialize (IH (S i)).
  destruct (App.primaryKey (f i c)) eqn:E.
  - rewrite (Hf _ _ E). simpl. lia.
  - destruct (App.primaryKey c); simpl; lia.
Qed.

(** A pass that leaves a primary key at [index] only. *)
Lemma primaryKeys_only_at (index : nat) (h : nat -> App.column -> App.column)
      (cols : list App.column) :
  (forall j c, App.primaryKey (h j c) = Nat.eqb j index) ->
  forall i, primaryKeys (App.mapIndexFrom i h cols) =
            if Nat.leb i index && Nat.ltb index (i + List.length cols) then 1 else 0.
Proof.
  intros Hh. unfold primaryKeys.
  induction cols as [|c cols IH]; intro i; simpl.
  - destruct (Nat.leb_spec i index), (Nat.ltb_spec index (i + 0)); simpl; lia.
  - rewrite Hh.
    destruct (Nat.eqb_spec i index); cbn [List.length]; rewrite IH;
      destruct (Nat.leb_spec i index),
        (Nat.ltb_spec index (i + S (List.length cols))),
        (Nat.leb_spec (S i) index), (Nat.ltb_spec index (S i + List.length cols));
      simpl; lia.
Qed.

Lemma nth_error_mapIndexFrom (f : nat -> App.column -> App.column) (cols : list App.column) :
  forall i n, nth_error (App.mapIndexFrom i f cols) n =
              option_map (f (i + n)) (nth_error cols n).
Proof.
  induction cols as [|c cols IH]; intros i [|n]; simpl; try reflexivity.
  - now rewrite Nat.add_0_r.
  - rewrite IH. now rewrite Nat.add_succ_r.
Qed.

Lemma dropIndexFrom_length (index : nat) (cols : list App.column) :
  forall i, List.length cols <= S (List.length (App.dropIndexFrom i index cols)).
Proof.
  induction cols as [|c cols IH]; intro i; simpl; [lia|].
  specialize (IH (S i)).
  destruct (Nat.eqb_spec i index) as [->|Hne]; simpl; [|lia].
  (* past the index, nothing else is dropped *)
  assert (H : forall l j, index < j -> App.dropIndexFrom j index l = l).
  { induction l as [|d l IHl]; intros j Hj; simpl; [reflexivity|].
    destruct (Nat.eqb_spec j index); [lia|]. now rewrite IHl by lia. }
  rewrite H by lia. lia.
Qed.

Lemma dropIndexFrom_primaryKeys (index : nat) (cols : list App.column) :
  forall i, primaryKeys (App.dropIndexFrom i index cols) <= primaryKeys cols.
Proof.
  unfold primaryKeys.
  induction cols as [|c cols IH]; intro i; simpl; [lia|].
  specialize (IH (S i)).
  destruct (Nat.eqb i index); simpl; destruct (App.primaryKey c); simpl; lia.
Qed.

Lemma primaryKeys_addColumn (cols : list App.column) :
  primaryKeys (App.addColumn cols) = primaryKeys cols.
Proof.
  unfold primaryKeys, App.addColumn. rewrite filter_app. simpl.
  now rewrite app_nil_r.
Qed.

(** What [updateColumn] returns when it returns. *)
Lemma updateColumn_cases (index : nat) (ch : App.change) (cols cols' : list App.column) :
  App.updateColumn index ch cols = Normal cols' ->
  index < List.length cols /\
  List.length cols' = List.length cols /\
  ((ch = App.SetPrimaryKey true /\ primaryKeys cols' = 1) \/
   (ch <> App.SetPrimaryKey true /\ primaryKeys cols' <= primaryKeys cols)).
Proof.
  unfold App.updateColumn.
  destruct (nth_error cols index) as [c0|] eqn:E; cbn [deref bind]; [|discriminate].
  assert (Hlt : index < List.length cols) by (apply nth_error_Some; congruence).
  intros [= <-]. split; [exact Hlt|].
  assert (Hkeep :
            ch <> App.SetPrimaryKey true ->
            primaryKeys
              (App.mapIndexFrom 0
                 (fun i col => if Nat.eqb i index then App.assign ch col else col) cols)
            <= primaryKeys cols).
  { intro Hne. apply primaryKeys_mapIndexFrom. intros j c.
    destruct (Nat.eqb j index); [|auto].
    destruct ch as [a|a|[|]|a]; simpl; auto; try discriminate. }
  destruct ch as [a|a|[|]|a]; rewrite ?mapIndexFrom_fuse, ?mapIndexFrom_length;
    (split; [reflexivity|]).
  - right. split; [discriminate|]. apply Hkeep. discriminate.
  - right. split; [discriminate|]. apply Hkeep. discriminate.
  - left. split; [reflexivity|].
    rewrite (primaryKeys_only_at index).
    + destruct (Nat.leb_spec 0 index), (Nat.ltb_spec index (0 + List.length cols));
        simpl in *; lia.
    + intros j c. destruct (Nat.eqb j index); reflexivity.
  - right. split; [discriminate|]. apply Hkeep. discriminate.
  - right. split; [discriminate|]. apply Hkeep. discriminate.
Qed.

Lemma formColumns_invariant (cols : list App.column) :
  formColumns cols -> 1 <= List.length cols /\ primaryKeys cols <= 1.
Proof.
  induction 1 as [|cols _ [IHl IHp]|index cols _ [IHl IHp]|index ch cols cols' _ [IHl IHp] Hu].
  - split; simpl; [lia | reflexivity].
  - split; [unfold App.addColumn; rewrite List.length_app; simpl; lia|].
    now rewrite primaryKeys_addColumn.
  - unfold App.removeColumn.
    destruct (Nat.eqb_spec (List.length cols) 1) as [E|E]; [now split|]. split.
    + pose proof (dropIndexFrom_length index cols 0). lia.
    + pose proof (dropIndexFrom_primaryKeys index cols 0). lia.
  - apply updateColumn_cases in Hu as (_ & Hlen & [[_ Hp]|[_ Hp]]); split; lia.
Qed.

End TableForm.

(** X23: whatever the user does to the column list of the table form
    (add a column, remove one, edit a field of one), starting from a fresh
    form, the list never becomes empty and never holds more than one
    primary key. *)
Theorem formColumns_nonempty_one_key (cols : list App.column) :
  formColumns cols -> cols <> [] /\ primaryKeys cols <= 1.
Proof.
  intro H. apply formColumns_invariant in H as [Hl Hp]. split; [|exact Hp].
  intros ->. simpl in Hl. lia.
Qed.

Lemma formColumns_nonempty_one_key_witness :
  App.removeColumn 0 (App.addColumn App.initialColumns) <> [] /\
  primaryKeys (App.removeColumn 0 (App.addColumn App.initialColumns)) <= 1.
Proof.
  apply (formColumns_nonempty_one_key (App.removeColumn 0 (App.addColumn App.initialColumns))).
  apply FormRemove, FormAdd, FormInitial.
Defined.

(** X24: ticking "primary key" on the column at [index] makes that column
    the only primary key of the form, whatever the keys were before. *)
Theorem updateColumn_exclusive_primary_key (index : nat) (cols : list App.column) :
  index < List.length cols ->
  exists cols' c,
    App.updateColumn index (App.SetPrimaryKey true) cols = Normal cols' /\
    List.length cols' = List.length cols /\
    primaryKeys cols' = 1 /\
    nth_error cols' index = Some c /\ App.primaryKey c = true.
Proof.
  intro Hlt. destruct (nth_error cols index) as [c0|] eqn:E;
    [|apply nth_error_None in E; lia].
  destruct (App.updateColumn index (App.SetPrimaryKey true) cols) as [cols'|e] eqn:Hu.
  - pose proof (updateColumn_cases _ _ _ _ Hu) as (_ & Hlen & [[_ Hp]|[Hne _]]);
      [|congruence].
    unfold App.updateColumn in Hu. rewrite E in Hu. cbn [deref bind] in Hu.
    injection Hu as <-.
    eexists. eexists. split; [reflexivity|]. split; [exact Hlen|]. split; [exact Hp|].
    rewrite mapIndexFrom_fuse, nth_error_mapIndexFrom, E. cbn [option_map Nat.add].
    rewrite Nat.eqb_refl. split; reflexivity.
  - unfold App.updateColumn in Hu. rewrite E in Hu. discriminate.
Qed.

Lemma updateColumn_exclusive_primary_key_witness :
  exists cols' c,
    App.updateColumn 1 (App.SetPrimaryKey true) (App.addColumn App.initialColumns) =
    Normal cols' /\
    List.length cols' = List.length (App.addColumn App.initialColumns) /\
    primaryKeys cols' = 1 /\
    nth_error cols' 1 = Some c /\ App.primaryKey c = true.
Proof.
  apply (updateColumn_exclusive_primary_key 1 (App.addColumn App.initialColumns)).
  simpl. lia.
Defined.

Section TableRequest.

Lemma body_primary_keys (cols : list App.column) :
  List.length
    (filter Server.is_primary_key
       (map (fun col =>
               Server.mkColumnSpec (App.name col) (App.type col) (App.primaryKey col)
                                   (App.nullable col) "") cols)) =
  primaryKeys cols.
Proof.
  unfold primaryKeys. induction cols as [|c cols IH]; simpl; [reflexivity|].
  destruct (App.primaryKey c); simpl; now rewrite IH.
Qed.

End TableRequest.


